(** * Swyft calculators: loan amortisation, income tax, income annualisation

    A shallow embedding of the calculation functions of the repository:
    - [Loan]: [calculateLoanRepayments] and [generateAmortizationSchedule]
      of the extracted logic module, and [validateInputs] /
      [calculateRepayments] of [LoanCalculator.tsx];
    - [Tax]: the functions of [IncomeTaxCalculator.tsx];
    - [Annualisation]: the functions of the income annualisation component.

    Numbers.  The source computes on JavaScript numbers.  Here a number is
    an exact rational ([Q]): [+], [-], [*], [/] are the exact operations,
    comparisons are decided by [Qle_bool] / [Qeq_bool], and no rounding,
    [NaN] or infinity is modelled.  Equality of numbers is [==] ([Qeq]).
    [Math.pow] is the exact power at whole exponents; its value at the
    other exponents is not rational and is a parameter of the loan
    section.

    The source rounds every operation to a double; the sums and products
    of the model are exact.  The statements on the entries of the schedule
    keep clear of the difference where they can: they are phrased on the
    control flow, on comparisons and on the single operation that
    produces a field, and they take the result passed to
    [generateAmortizationSchedule] as it is, whatever numbers the engine
    computed for the payment and for the number of periods. *)

From Stdlib Require Import QArith Qround Qpower ZArith List Bool String Sorted Lia Lqa.
Import ListNotations.

Local Open Scope Q_scope.

(** ** JavaScript helpers *)

Module Js.

(** [x < y] *)
Definition Qlt_bool (x y : Q) : bool := negb (Qle_bool y x).

(** [Math.max(a, b)] *)
Definition Math_max (a b : Q) : Q := if Qle_bool a b then b else a.

(** [Math.min(a, b)] *)
Definition Math_min (a b : Q) : Q := if Qle_bool a b then a else b.

(** A number is whole when it equals its integer part. *)
Definition is_whole (x : Q) : bool := Qeq_bool x (inject_Z (Qfloor x)).

End Js.

Import Js.

(** ** Powers and geometric sums over a natural exponent *)

Fixpoint qpow (q : Q) (m : nat) : Q :=
  match m with
  | O => 1
  | S m' => q * qpow q m'
  end.

(** [geom q m = 1 + q + ... + q^(m-1)] *)
Fixpoint geom (q : Q) (m : nat) : Q :=
  match m with
  | O => 0
  | S m' => qpow q m' + geom q m'
  end.

(** ** The loan calculator *)

Module Loan.

Inductive RepaymentFrequency := weekly | fortnightly | monthly.

Record LoanInputs := {
  loanAmount : Q;
  interestRate : Q;
  loanTerm : Q;
  repaymentFrequency : RepaymentFrequency;
  hasResidualPayment : bool;
  residualPayment : Q
}.

Record CalculationResults := {
  repaymentPerPeriod : Q;
  totalAmountPayable : Q;
  totalInterest : Q;
  periodsPerYear : Q;
  totalPeriods : Q
}.

Record AmortizationEntry := {
  paymentNumber : Q;
  paymentAmount : Q;
  principalAmount : Q;
  interestAmount : Q;
  remainingBalance : Q
}.

(** [repaymentFrequency === "weekly" ? 52 : repaymentFrequency === "fortnightly" ? 26 : 12] *)
Definition periodsPerYearOf (f : RepaymentFrequency) : Q :=
  match f with
  | weekly => 52
  | fortnightly => 26
  | monthly => 12
  end.

(** [hasResidualPayment ? residualPayment : 0] *)
Definition actualResidualOf (inputs : LoanInputs) : Q :=
  if hasResidualPayment inputs then residualPayment inputs else 0.

(** *** The repayment *)

Section Repayments.

(** The value of [Math.pow] at an exponent that is not whole. *)
Variable Math_pow_frac : Q -> Q -> Q.

(** [Math.pow(b, e)] *)
Definition Math_pow (b e : Q) : Q :=
  if is_whole e then b ^ Qfloor e else Math_pow_frac b e.

(** [calculateLoanRepayments] of the extracted logic module. *)
Definition calculateLoanRepayments (inputs : LoanInputs) : option CalculationResults :=
  if Qle_bool (loanAmount inputs) 0 || Qlt_bool (interestRate inputs) 0
     || Qle_bool (loanTerm inputs) 0
  then None
  else
    let periodsPerYear := periodsPerYearOf (repaymentFrequency inputs) in
    let periodicRate := interestRate inputs / 100 / periodsPerYear in
    let totalPeriods := loanTerm inputs * periodsPerYear in
    let actualResidual := actualResidualOf inputs in
    let principalToAmortize := loanAmount inputs - actualResidual in
    if Qeq_bool periodicRate 0 then
      let repaymentPerPeriod := principalToAmortize / totalPeriods in
      let totalAmountPayable := principalToAmortize + actualResidual in
      Some {| repaymentPerPeriod := repaymentPerPeriod;
              totalAmountPayable := totalAmountPayable;
              totalInterest := 0;
              periodsPerYear := periodsPerYear;
              totalPeriods := totalPeriods |}
    else
      let powerTerm := Math_pow (1 + periodicRate) totalPeriods in
      let repaymentPerPeriod :=
        (principalToAmortize * periodicRate * powerTerm) / (powerTerm - 1) in
      let totalAmountPayable := repaymentPerPeriod * totalPeriods + actualResidual in
      let totalInterest := totalAmountPayable - loanAmount inputs in
      Some {| repaymentPerPeriod := repaymentPerPeriod;
              totalAmountPayable := totalAmountPayable;
              totalInterest := totalInterest;
              periodsPerYear := periodsPerYear;
              totalPeriods := totalPeriods |}.

(** [calculateRepayments] of [LoanCalculator.tsx]: the same computation
    behind the [isFormValid] state of the component. *)
Definition calculateRepayments (isFormValid : bool) (inputs : LoanInputs)
  : option CalculationResults :=
  if negb isFormValid then None
  else
    let periodsPerYear := periodsPerYearOf (repaymentFrequency inputs) in
    let periodicRate := interestRate inputs / 100 / periodsPerYear in
    let totalPeriods := loanTerm inputs * periodsPerYear in
    let actualResidual := actualResidualOf inputs in
    let principalToAmortize := loanAmount inputs - actualResidual in
    if Qeq_bool periodicRate 0 then
      let repaymentPerPeriod := principalToAmortize / totalPeriods in
      let totalAmountPayable := principalToAmortize + actualResidual in
      Some {| repaymentPerPeriod := repaymentPerPeriod;
              totalAmountPayable := totalAmountPayable;
              totalInterest := 0;
              periodsPerYear := periodsPerYear;
              totalPeriods := totalPeriods |}
    else
      let powerTerm := Math_pow (1 + periodicRate) totalPeriods in
      let repaymentPerPeriod :=
        (principalToAmortize * periodicRate * powerTerm) / (powerTerm - 1) in
      let totalAmountPayable := repaymentPerPeriod * totalPeriods + actualResidual in
      let totalInterest := totalAmountPayable - loanAmount inputs in
      Some {| repaymentPerPeriod := repaymentPerPeriod;
              totalAmountPayable := totalAmountPayable;
              totalInterest := totalInterest;
              periodsPerYear := periodsPerYear;
              totalPeriods := totalPeriods |}.

End Repayments.

(** *** Validation of the form ([LoanCalculator.tsx]) *)

Record ValidationErrors := {
  err_loanAmount : option string;
  err_interestRate : option string;
  err_loanTerm : option string;
  err_residualPayment : option string
}.

Record TouchedFields := {
  touched_loanAmount : bool;
  touched_interestRate : bool;
  touched_loanTerm : bool;
  touched_residualPayment : bool
}.

Definition validateInputs (currentInputs : LoanInputs) (touched : TouchedFields)
  : ValidationErrors :=
  let e_amount :=
    if touched_loanAmount touched && Qle_bool (loanAmount currentInputs) 0
    then Some "Loan amount must be greater than 0"%string else None in
  let e_rate :=
    if touched_interestRate touched
       && (Qlt_bool (interestRate currentInputs) 0
           || Qlt_bool 100 (interestRate currentInputs))
    then Some "Interest rate must be between 0 and 100"%string else None in
  let e_term :=
    if touched_loanTerm touched
       && (Qle_bool (loanTerm currentInputs) 0 || Qlt_bool 7 (loanTerm currentInputs))
    then Some "Loan term must be between 0 and 7 years"%string else None in
  let e_residual :=
    if hasResidualPayment currentInputs && touched_residualPayment touched
       && Qlt_bool (residualPayment currentInputs) 0
    then Some "Residual payment cannot be negative"%string else None in
  let e_residual :=
    if hasResidualPayment currentInputs && touched_residualPayment touched
       && Qle_bool (loanAmount currentInputs) (residualPayment currentInputs)
    then Some "Residual payment must be less than loan amount"%string
    else e_residual in
  {| err_loanAmount := e_amount;
     err_interestRate := e_rate;
     err_loanTerm := e_term;
     err_residualPayment := e_residual |}.

(** [Object.keys(newErrors).length === 0] *)
Definition no_errors (e : ValidationErrors) : bool :=
  match err_loanAmount e, err_interestRate e, err_loanTerm e, err_residualPayment e with
  | None, None, None, None => true
  | _, _, _, _ => false
  end.

(** The value the validation effect stores in [isFormValid]. *)
Definition formValid (inputs : LoanInputs) (touched : TouchedFields) : bool :=
  no_errors (validateInputs inputs touched)
  && Qlt_bool 0 (loanAmount inputs)
  && Qle_bool 0 (interestRate inputs)
  && Qlt_bool 0 (loanTerm inputs).

(** *** The schedule *)

(** The [for] loop of [generateAmortizationSchedule]: [k] is
    [paymentNumber], [bal] is [remainingBalance]; [fuel] bounds the number
    of iterations. *)
Fixpoint schedule_loop (fuel : nat) (repaymentPerPeriod periodicRate totalPeriods : Q)
    (k : Z) (bal : Q) : list AmortizationEntry :=
  match fuel with
  | O => []
  | S fuel' =>
    if Qle_bool (inject_Z k) totalPeriods then
      let interestAmount := bal * periodicRate in
      let principalAmount := repaymentPerPeriod - interestAmount in
      if Qeq_bool (inject_Z k) totalPeriods then
        let adjustedPrincipal := bal in
        let adjustedPayment := adjustedPrincipal + interestAmount in
        {| paymentNumber := inject_Z k;
           paymentAmount := adjustedPayment;
           principalAmount := adjustedPrincipal;
           interestAmount := interestAmount;
           remainingBalance := 0 |}
        :: schedule_loop fuel' repaymentPerPeriod periodicRate totalPeriods (k + 1) bal
      else
        let bal' := bal - principalAmount in
        {| paymentNumber := inject_Z k;
           paymentAmount := repaymentPerPeriod;
           principalAmount := principalAmount;
           interestAmount := interestAmount;
           remainingBalance := Math_max 0 bal' |}
        :: schedule_loop fuel' repaymentPerPeriod periodicRate totalPeriods (k + 1) bal'
    else []
  end.

(** The entries pushed by the loop: one per period.  The loop runs for
    [paymentNumber = 1, 2, ...] while [paymentNumber <= totalPeriods], that
    is [floor totalPeriods] times. *)
Definition regularEntries (inputs : LoanInputs) (res : CalculationResults)
  : list AmortizationEntry :=
  let periodicRate := interestRate inputs / 100 / periodsPerYear res in
  let actualResidual := actualResidualOf inputs in
  let principalToAmortize := loanAmount inputs - actualResidual in
  schedule_loop (Z.to_nat (Qfloor (totalPeriods res)))
    (repaymentPerPeriod res) periodicRate (totalPeriods res) 1 principalToAmortize.

(** The balloon entry pushed after the loop. *)
Definition residualEntry (inputs : LoanInputs) (res : CalculationResults)
  : list AmortizationEntry :=
  if hasResidualPayment inputs && Qlt_bool 0 (residualPayment inputs) then
    [ {| paymentNumber := totalPeriods res + 1;
         paymentAmount := residualPayment inputs;
         principalAmount := residualPayment inputs;
         interestAmount := 0;
         remainingBalance := 0 |} ]
  else [].

(** [generateAmortizationSchedule] *)
Definition generateAmortizationSchedule (inputs : LoanInputs)
    (calculationResults : option CalculationResults) : list AmortizationEntry :=
  match calculationResults with
  | None => []
  | Some res => regularEntries inputs res ++ residualEntry inputs res
  end.

(** *** Inputs and observations used by the statements *)

(** The constraints of the data model on a loan input. *)
Definition valid (i : LoanInputs) : Prop :=
  0 < loanAmount i /\ 0 <= interestRate i /\ 0 < loanTerm i
  /\ 0 <= residualPayment i
  /\ (hasResidualPayment i = true -> residualPayment i < loanAmount i).

(** The quantities both functions derive from an input. *)
Definition periodicRateOf (i : LoanInputs) : Q :=
  interestRate i / 100 / periodsPerYearOf (repaymentFrequency i).

Definition totalPeriodsOf (i : LoanInputs) : Q :=
  loanTerm i * periodsPerYearOf (repaymentFrequency i).

Definition principalToAmortizeOf (i : LoanInputs) : Q :=
  loanAmount i - actualResidualOf i.

(** The number of periods of the input is a whole number. *)
Definition whole_periods (i : LoanInputs) : Prop :=
  is_whole (totalPeriodsOf i) = true.

Definition with_residualPayment (i : LoanInputs) (x : Q) : LoanInputs :=
  {| loanAmount := loanAmount i;
     interestRate := interestRate i;
     loanTerm := loanTerm i;
     repaymentFrequency := repaymentFrequency i;
     hasResidualPayment := hasResidualPayment i;
     residualPayment := x |}.

Fixpoint sum_of (f : AmortizationEntry -> Q) (l : list AmortizationEntry) : Q :=
  match l with
  | [] => 0
  | e :: l' => f e + sum_of f l'
  end.

Fixpoint last_entry (l : list AmortizationEntry) : option AmortizationEntry :=
  match l with
  | [] => None
  | [e] => Some e
  | _ :: l' => last_entry l'
  end.

(** How the three kinds of entry relate payment, principal part and
    interest, by the one operation of the source that produces the field:
    - a regular entry pays the nominal payment, and its principal part is
      [repaymentPerPeriod - interestAmount];
    - the adjusted final entry pays [adjustedPrincipal + interestAmount]
      and closes the balance;
    - the residual entry pays its principal part, without interest, and
      closes the balance. *)
Definition entry_consistent (res : CalculationResults) (e : AmortizationEntry) : Prop :=
  (paymentAmount e = repaymentPerPeriod res
   /\ principalAmount e = paymentAmount e - interestAmount e)
  \/ (paymentAmount e = principalAmount e + interestAmount e
      /\ remainingBalance e = 0)
  \/ (paymentAmount e = principalAmount e
      /\ interestAmount e = 0 /\ remainingBalance e = 0).

(** Consecutive entries [a], [b] of a schedule: the interest does not
    increase, the principal part does not decrease. *)
Definition interest_nonincreasing (a b : AmortizationEntry) : Prop :=
  interestAmount b <= interestAmount a.

Definition principal_nondecreasing (a b : AmortizationEntry) : Prop :=
  principalAmount a <= principalAmount b.

(** The same, up to the adjusted final entry, the one numbered
    [totalPeriods], whose principal part is the balance that is left. *)
Definition principal_nondecreasing_until (totalPeriods : Q)
    (a b : AmortizationEntry) : Prop :=
  paymentNumber b == totalPeriods \/ principalAmount a <= principalAmount b.

(** [test] holds of every pair of consecutive entries. *)
Fixpoint adjacent_all (test : AmortizationEntry -> AmortizationEntry -> bool)
    (l : list AmortizationEntry) : bool :=
  match l with
  | a :: (b :: _) as l' => test a b && adjacent_all test l'
  | _ => true
  end.

(** A stand-in for [Math.pow] at exponents that are not whole, used to run
    the functions on concrete inputs: the power at the next whole
    exponent.  No sample loan below has both a positive rate and a
    fractional number of periods, so it is never consulted on them. *)
Definition pow_ceiling (b e : Q) : Q := b ^ Qceiling e.

(** *** Sample loans *)

(** A zero-rate loan of 1200 over an eighth of a year, paid monthly: 1.5
    periods and a payment of 800. *)
Definition loan_fractional : LoanInputs :=
  {| loanAmount := 1200; interestRate := 0; loanTerm := 0.125;
     repaymentFrequency := monthly; hasResidualPayment := false;
     residualPayment := 0 |}.

(** A zero-rate loan of 12000 over one year, paid monthly, with a residual
    payment of 6000. *)
Definition loan_zero_rate_residual : LoanInputs :=
  {| loanAmount := 12000; interestRate := 0; loanTerm := 1;
     repaymentFrequency := monthly; hasResidualPayment := true;
     residualPayment := 6000 |}.

(** A loan whose flagged residual payment exceeds the loan amount. *)
Definition loan_residual_above : LoanInputs :=
  {| loanAmount := 20000; interestRate := 0; loanTerm := 3;
     repaymentFrequency := monthly; hasResidualPayment := true;
     residualPayment := 25000 |}.

(** A loan of 10000 at 12% over a quarter of a year, paid monthly, with a
    residual payment of 100. *)
Definition loan_small_residual : LoanInputs :=
  {| loanAmount := 10000; interestRate := 12; loanTerm := 0.25;
     repaymentFrequency := monthly; hasResidualPayment := true;
     residualPayment := 100 |}.

(** 30000 at 7.5% over 5 years, paid monthly. *)
Definition loan_standard : LoanInputs :=
  {| loanAmount := 30000; interestRate := 7.5; loanTerm := 5;
     repaymentFrequency := monthly; hasResidualPayment := false;
     residualPayment := 0 |}.

(** 12000 at 0% over 1 year, paid monthly. *)
Definition loan_zero_rate : LoanInputs :=
  {| loanAmount := 12000; interestRate := 0; loanTerm := 1;
     repaymentFrequency := monthly; hasResidualPayment := false;
     residualPayment := 0 |}.

(** 40000 at 8% over 4 years, paid monthly, with a residual payment of
    10000. *)
Definition loan_balloon : LoanInputs :=
  {| loanAmount := 40000; interestRate := 8; loanTerm := 4;
     repaymentFrequency := monthly; hasResidualPayment := true;
     residualPayment := 10000 |}.

(** 20000 at 5% over 2 years, paid monthly, with a residual payment of
    5000. *)
Definition loan_two_years_balloon : LoanInputs :=
  {| loanAmount := 20000; interestRate := 5; loanTerm := 2;
     repaymentFrequency := monthly; hasResidualPayment := true;
     residualPayment := 5000 |}.

(** 12000 at 6% over 1 year, paid monthly. *)
Definition loan_one_year : LoanInputs :=
  {| loanAmount := 12000; interestRate := 6; loanTerm := 1;
     repaymentFrequency := monthly; hasResidualPayment := false;
     residualPayment := 0 |}.

(** [loan_zero_rate] with another value left in the residual field. *)
Definition loan_zero_rate_stale : LoanInputs := with_residualPayment loan_zero_rate 5000.

End Loan.

(** ** The income tax calculator ([IncomeTaxCalculator.tsx]) *)

Module Tax.

Inductive IncomeFrequency := annual | monthly | weekly.

Record TaxInputs := {
  income : Q;
  incomeFrequency : IncomeFrequency
}.

Record TaxCalculationResults := {
  grossIncome : Q;
  taxableIncome : Q;
  incomeTax : Q;
  medicareLevy : Q;
  medicareLevySurcharge : Q;
  totalTax : Q;
  netIncome : Q;
  effectiveTaxRate : Q;
  marginalTaxRate : Q
}.

(** [max = None] is the source's [max: null]. *)
Record TaxBracket := {
  min : Q;
  max : option Q;
  rate : Q;
  baseTax : Q
}.

(** 2024-25 Australian tax brackets *)
Definition taxBrackets : list TaxBracket :=
  [ {| min := 0; max := Some 18200; rate := 0; baseTax := 0 |};
    {| min := 18201; max := Some 45000; rate := 0.16; baseTax := 0 |};
    {| min := 45001; max := Some 135000; rate := 0.30; baseTax := 4288 |};
    {| min := 135001; max := Some 190000; rate := 0.37; baseTax := 31288 |};
    {| min := 190001; max := None; rate := 0.45; baseTax := 51638 |} ].

(** Medicare levy surcharge thresholds ([baseTax] is not part of these
    entries and is left at 0). *)
Definition medicareSurchargeThresholds : list TaxBracket :=
  [ {| min := 0; max := Some 97000; rate := 0; baseTax := 0 |};
    {| min := 97001; max := Some 113000; rate := 0.01; baseTax := 0 |};
    {| min := 113001; max := Some 151000; rate := 0.0125; baseTax := 0 |};
    {| min := 151001; max := None; rate := 0.015; baseTax := 0 |} ].

(** [taxableIncome >= bracket.min && (bracket.max === null || taxableIncome <= bracket.max)] *)
Definition in_bracket (taxableIncome : Q) (bracket : TaxBracket) : bool :=
  Qle_bool (min bracket) taxableIncome
  && match max bracket with
     | None => true
     | Some m => Qle_bool taxableIncome m
     end.

Definition calculateLITO (taxableIncome : Q) : Q :=
  if Qle_bool taxableIncome 37500 then 700
  else if Qle_bool taxableIncome 45000 then
    Math_max 0 (700 - ((taxableIncome - 37500) * 0.05))
  else if Qle_bool taxableIncome 66667 then
    Math_max 0 (325 - ((taxableIncome - 45000) * 0.015))
  else 0.

Definition calculateMedicareLevy (taxableIncome : Q) : Q :=
  let medicareThreshold := 27222 in
  let medicareUpperThreshold := 34027 in
  let medicareRate := 0.02 in
  if Qle_bool taxableIncome medicareThreshold then 0
  else if Qle_bool taxableIncome medicareUpperThreshold then
    let phaseInAmount := (taxableIncome - medicareThreshold) * 0.1 in
    Math_min phaseInAmount (taxableIncome * medicareRate)
  else taxableIncome * medicareRate.

(** The [for ... of] loop with an early [return] over a table of tiers;
    [fallback] is the value returned after the loop. *)
Fixpoint first_matching (taxableIncome : Q) (table : list TaxBracket)
    (found : TaxBracket -> Q) (fallback : Q) : Q :=
  match table with
  | [] => fallback
  | bracket :: table' =>
    if in_bracket taxableIncome bracket then found bracket
    else first_matching taxableIncome table' found fallback
  end.

Definition calculateMedicareLevySurcharge (taxableIncome : Q) : Q :=
  first_matching taxableIncome medicareSurchargeThresholds
    (fun bracket => taxableIncome * rate bracket) 0.

Definition calculateIncomeTax (taxableIncome : Q) : Q :=
  let totalTax := 0 in
  let totalTax :=
    if Qlt_bool 18200 taxableIncome then
      let taxableAt16 := Math_min (taxableIncome - 18200) (45000 - 18200) in
      totalTax + taxableAt16 * 0.16
    else totalTax in
  let totalTax :=
    if Qlt_bool 45000 taxableIncome then
      let taxableAt30 := Math_min (taxableIncome - 45000) (135000 - 45000) in
      totalTax + taxableAt30 * 0.30
    else totalTax in
  let totalTax :=
    if Qlt_bool 135000 taxableIncome then
      let taxableAt37 := Math_min (taxableIncome - 135000) (190000 - 135000) in
      totalTax + taxableAt37 * 0.37
    else totalTax in
  let totalTax :=
    if Qlt_bool 190000 taxableIncome then
      let taxableAt45 := taxableIncome - 190000 in
      totalTax + taxableAt45 * 0.45
    else totalTax in
  let lito := calculateLITO taxableIncome in
  Math_max 0 (totalTax - lito).

Definition getMarginalTaxRate (taxableIncome : Q) : Q :=
  first_matching taxableIncome taxBrackets (fun bracket => rate bracket) 0.

Definition getAnnualIncome (income : Q) (frequency : IncomeFrequency) : Q :=
  match frequency with
  | weekly => income * 52
  | monthly => income * 12
  | annual => income
  end.

Definition getFrequencyAmount (annualAmount : Q) (frequency : IncomeFrequency) : Q :=
  match frequency with
  | weekly => annualAmount / 52
  | monthly => annualAmount / 12
  | annual => annualAmount
  end.

(** [validateInputs]: the error of the only field, [income]. *)
Definition validateInputs (currentInputs : TaxInputs) (touched_income : bool)
  : option string :=
  let e :=
    if touched_income && Qle_bool (income currentInputs) 0
    then Some "Income must be greater than 0"%string else None in
  if touched_income && Qlt_bool 10000000 (income currentInputs)
  then Some "Income must be less than $10,000,000"%string else e.

(** The value the validation effect stores in [isFormValid]. *)
Definition formValid (inputs : TaxInputs) (touched_income : bool) : bool :=
  match validateInputs inputs touched_income with
  | None => Qlt_bool 0 (income inputs)
  | Some _ => false
  end.

Definition calculateTax (isFormValid : bool) (inputs : TaxInputs)
  : option TaxCalculationResults :=
  if negb isFormValid then None
  else
    let grossIncome := getAnnualIncome (income inputs) (incomeFrequency inputs) in
    let taxableIncome := grossIncome in
    let incomeTax := calculateIncomeTax taxableIncome in
    let medicareLevy := calculateMedicareLevy taxableIncome in
    let medicareLevySurcharge := calculateMedicareLevySurcharge taxableIncome in
    let totalTax := incomeTax + medicareLevy + medicareLevySurcharge in
    let netIncome := grossIncome - totalTax in
    let effectiveTaxRate :=
      if Qlt_bool 0 grossIncome then (totalTax / grossIncome) * 100 else 0 in
    let marginalTaxRate := getMarginalTaxRate taxableIncome * 100 in
    Some {| grossIncome := grossIncome;
            taxableIncome := taxableIncome;
            incomeTax := incomeTax;
            medicareLevy := medicareLevy;
            medicareLevySurcharge := medicareLevySurcharge;
            totalTax := totalTax;
            netIncome := netIncome;
            effectiveTaxRate := effectiveTaxRate;
            marginalTaxRate := marginalTaxRate |}.

(** A line of the breakdown; [rateLabel] is the source's field [rate]. *)
Record BreakdownLine := {
  range : string;
  rateLabel : string;
  taxableAmount : Q;
  taxAmount : Q;
  isOffset : bool
}.

Definition taxBreakdown (calculateTax : option TaxCalculationResults) (isFormValid : bool)
  : list BreakdownLine :=
  match calculateTax with
  | None => []
  | Some results =>
    if negb isFormValid then []
    else
      let grossIncome := grossIncome results in
      let breakdown := [] in
      let breakdown :=
        if Qlt_bool 0 grossIncome then
          let taxFreeAmount := Math_min grossIncome 18200 in
          breakdown ++ [ {| range := "$0 - $18,200"; rateLabel := "0.0%";
                            taxableAmount := taxFreeAmount; taxAmount := 0;
                            isOffset := false |} ]
        else breakdown in
      let breakdown :=
        if Qlt_bool 18200 grossIncome then
          let taxableAt16 := Math_min (grossIncome - 18200) (45000 - 18200) in
          breakdown ++ [ {| range := "$18,201 - $45,000"; rateLabel := "16.0%";
                            taxableAmount := taxableAt16; taxAmount := taxableAt16 * 0.16;
                            isOffset := false |} ]
        else breakdown in
      let breakdown :=
        if Qlt_bool 45000 grossIncome then
          let taxableAt30 := Math_min (grossIncome - 45000) (135000 - 45000) in
          breakdown ++ [ {| range := "$45,001 - $135,000"; rateLabel := "30.0%";
                            taxableAmount := taxableAt30; taxAmount := taxableAt30 * 0.30;
                            isOffset := false |} ]
        else breakdown in
      let breakdown :=
        if Qlt_bool 135000 grossIncome then
          let taxableAt37 := Math_min (grossIncome - 135000) (190000 - 135000) in
          breakdown ++ [ {| range := "$135,001 - $190,000"; rateLabel := "37.0%";
                            taxableAmount := taxableAt37; taxAmount := taxableAt37 * 0.37;
                            isOffset := false |} ]
        else breakdown in
      let breakdown :=
        if Qlt_bool 190000 grossIncome then
          let taxableAt45 := grossIncome - 190000 in
          breakdown ++ [ {| range := "$190,001+"; rateLabel := "45.0%";
                            taxableAmount := taxableAt45; taxAmount := taxableAt45 * 0.45;
                            isOffset := false |} ]
        else breakdown in
      let litoAmount := calculateLITO grossIncome in
      let breakdown :=
        if Qlt_bool 0 litoAmount then
          breakdown ++ [ {| range := "Low Income Tax Offset"; rateLabel := "Offset";
                            taxableAmount := grossIncome; taxAmount := - litoAmount;
                            isOffset := true |} ]
        else breakdown in
      breakdown
  end.

(** [taxBreakdown.reduce((sum, bracket) => sum + bracket.taxAmount, 0)],
    the figure shown as "Total Income Tax:" under the breakdown table. *)
Definition breakdownTotal (breakdown : list BreakdownLine) : Q :=
  fold_left (fun sum bracket => sum + taxAmount bracket) breakdown 0.

(** *** The progressive bracket tax of the specification *)

(** [computeBracketTax] as the specification words it, over the bracket
    table rather than the unrolled conditionals of [calculateIncomeTax].
    The tax of the brackets of [table] on [taxableIncome]: brackets are
    taken in ascending order, the floor of a bracket is the ceiling of the
    one before it ([floor] for the first), and a bracket whose floor is
    below the income adds [min(income - floor, width) * rate], the width
    of the last bracket being unbounded. *)
Fixpoint bracketTaxFrom (floor : Q) (table : list TaxBracket) (taxableIncome : Q) : Q :=
  match table with
  | [] => 0
  | bracket :: table' =>
    let portion :=
      match max bracket with
      | Some ceiling => Math_min (taxableIncome - floor) (ceiling - floor)
      | None => taxableIncome - floor
      end in
    let next :=
      match max bracket with
      | Some ceiling => bracketTaxFrom ceiling table' taxableIncome
      | None => 0
      end in
    (if Qlt_bool floor taxableIncome then portion * rate bracket else 0) + next
  end.

Definition computeBracketTax (taxableIncome : Q) : Q :=
  bracketTaxFrom 0 taxBrackets taxableIncome.

(** The constraint of the form on a tax input. *)
Definition valid (i : TaxInputs) : Prop :=
  0 < income i /\ income i <= 10000000.

(** *** Sample incomes *)

(** An annual income of 10000. *)
Definition low_income : TaxInputs := {| income := 10000; incomeFrequency := annual |}.

(** An annual income of 45000.50. *)
Definition income_between_brackets : TaxInputs :=
  {| income := 45000.5; incomeFrequency := annual |}.

(** An annual income of 75000. *)
Definition income_75000 : TaxInputs := {| income := 75000; incomeFrequency := annual |}.

End Tax.

(** ** The income annualisation calculator *)

Module Annualisation.

Inductive PayFrequency := weekly | fortnightly | monthly | quarterly.

Record AnnualisationInputs := {
  ytdIncome : Q;
  paysReceived : Q;
  payFrequency : PayFrequency
}.

Record AnnualisationResults := {
  averagePayAmount : Q;
  annualisedIncome : Q;
  totalPayPeriodsInYear : Q;
  remainingPayPeriods : Q;
  projectedRemainingIncome : Q;
  monthsElapsed : Q
}.

Record ValidationErrors := {
  err_ytdIncome : option string;
  err_paysReceived : option string
}.

Record TouchedFields := {
  touched_ytdIncome : bool;
  touched_paysReceived : bool
}.

(** [payFrequencyConfig[f].periodsPerYear] *)
Definition periodsPerYear (f : PayFrequency) : Q :=
  match f with
  | weekly => 52
  | fortnightly => 26
  | monthly => 12
  | quarterly => 4
  end.

(** The message built from [maxPaysForFrequency] and the lower-cased label. *)
Definition exceedMessage (f : PayFrequency) : string :=
  match f with
  | weekly => "Cannot exceed 52 pays for weekly frequency"
  | fortnightly => "Cannot exceed 26 pays for fortnightly frequency"
  | monthly => "Cannot exceed 12 pays for monthly frequency"
  | quarterly => "Cannot exceed 4 pays for quarterly frequency"
  end.

Definition validateInputs (currentInputs : AnnualisationInputs) (touched : TouchedFields)
  : ValidationErrors :=
  let maxPaysForFrequency := periodsPerYear (payFrequency currentInputs) in
  let e_ytd :=
    if touched_ytdIncome touched && Qle_bool (ytdIncome currentInputs) 0
    then Some "YTD income must be greater than 0"%string else None in
  let e_pays :=
    if touched_paysReceived touched && Qle_bool (paysReceived currentInputs) 0
    then Some "Pay periods received must be greater than 0"%string else None in
  let e_pays :=
    if touched_paysReceived touched
       && Qlt_bool maxPaysForFrequency (paysReceived currentInputs)
    then Some (exceedMessage (payFrequency currentInputs)) else e_pays in
  {| err_ytdIncome := e_ytd; err_paysReceived := e_pays |}.

(** The value the validation effect stores in [isFormValid]. *)
Definition formValid (inputs : AnnualisationInputs) (touched : TouchedFields) : bool :=
  match err_ytdIncome (validateInputs inputs touched),
        err_paysReceived (validateInputs inputs touched) with
  | None, None => Qlt_bool 0 (ytdIncome inputs) && Qlt_bool 0 (paysReceived inputs)
  | _, _ => false
  end.

Definition calculateAnnualisation (isFormValid : bool) (inputs : AnnualisationInputs)
  : option AnnualisationResults :=
  if negb isFormValid then None
  else
    let periodsPerYear := periodsPerYear (payFrequency inputs) in
    let averagePayAmount := ytdIncome inputs / paysReceived inputs in
    let annualisedIncome := averagePayAmount * periodsPerYear in
    let remainingPayPeriods := periodsPerYear - paysReceived inputs in
    let projectedRemainingIncome := averagePayAmount * remainingPayPeriods in
    let weeksElapsed :=
      match payFrequency inputs with
      | weekly => paysReceived inputs
      | fortnightly => paysReceived inputs * 2
      | monthly => paysReceived inputs * 4.33
      | quarterly => paysReceived inputs * 13
      end in
    let monthsElapsed := weeksElapsed / 4.33 in
    Some {| averagePayAmount := averagePayAmount;
            annualisedIncome := annualisedIncome;
            totalPayPeriodsInYear := periodsPerYear;
            remainingPayPeriods := remainingPayPeriods;
            projectedRemainingIncome := projectedRemainingIncome;
            monthsElapsed := monthsElapsed |}.

(** The constraints of the data model on an annualisation input. *)
Definition valid (i : AnnualisationInputs) : Prop :=
  0 < ytdIncome i /\ 0 < paysReceived i
  /\ paysReceived i <= periodsPerYear (payFrequency i).

(** [weeksEquivalent] as the specification words it: the weeks covered by
    [pays] pay periods. *)
Definition weeksEquivalent (pays : Q) (f : PayFrequency) : Q :=
  match f with
  | weekly => pays * 1
  | fortnightly => pays * 2
  | monthly => pays * 4.33
  | quarterly => pays * 13
  end.

(** *** Sample input *)

(** 26000 received over 13 fortnightly pays. *)
Definition ytd_13_fortnights : AnnualisationInputs :=
  {| ytdIncome := 26000; paysReceived := 13; payFrequency := fortnightly |}.

(** Both fields edited. *)
Definition all_touched : TouchedFields :=
  {| touched_ytdIncome := true; touched_paysReceived := true |}.

End Annualisation.

(** ** The schedule of the loan component ([LoanCalculator.tsx]) *)

Module LoanComponent.

Import Loan.

(** [amortizationSchedule]: the loop and the balloon entry of
    [generateAmortizationSchedule], behind the result and the
    [isFormValid] state. *)
Definition amortizationSchedule (calculateRepayments : option CalculationResults)
    (isFormValid : bool) (inputs : LoanInputs) : list AmortizationEntry :=
  match calculateRepayments with
  | None => []
  | Some res =>
    if negb isFormValid then []
    else regularEntries inputs res ++ residualEntry inputs res
  end.

(** Every field of the form has been edited. *)
Definition all_touched : TouchedFields :=
  {| touched_loanAmount := true; touched_interestRate := true;
     touched_loanTerm := true; touched_residualPayment := true |}.

(** Consecutive entries [a], [b]: the remaining balance does not increase. *)
Definition balance_nonincreasing (a b : AmortizationEntry) : Prop :=
  remainingBalance b <= remainingBalance a.

End LoanComponent.

(** ** The mortgage calculator ([MortgageCalculator.tsx]) *)

Module Mortgage.

Import Loan.

Record MortgageInputs := {
  m_loanAmount : Q;
  m_interestRate : Q;
  m_loanTerm : Q;
  m_hasResidualPayment : bool;
  m_residualPayment : Q
}.

Definition validateInputs (currentInputs : MortgageInputs) (touched : TouchedFields)
  : ValidationErrors :=
  let e_amount :=
    if touched_loanAmount touched && Qle_bool (m_loanAmount currentInputs) 0
    then Some "Loan amount must be greater than 0"%string else None in
  let e_rate :=
    if touched_interestRate touched
       && (Qlt_bool (m_interestRate currentInputs) 0
           || Qlt_bool 100 (m_interestRate currentInputs))
    then Some "Interest rate must be between 0 and 100"%string else None in
  let e_term :=
    if touched_loanTerm touched
       && (Qle_bool (m_loanTerm currentInputs) 0
           || Qlt_bool 30 (m_loanTerm currentInputs))
    then Some "Loan term must be between 0 and 30 years"%string else None in
  let e_residual :=
    if m_hasResidualPayment currentInputs && touched_residualPayment touched
       && Qlt_bool (m_residualPayment currentInputs) 0
    then Some "Residual payment cannot be negative"%string else None in
  let e_residual :=
    if m_hasResidualPayment currentInputs && touched_residualPayment touched
       && Qle_bool (m_loanAmount currentInputs) (m_residualPayment currentInputs)
    then Some "Residual payment must be less than loan amount"%string
    else e_residual in
  {| err_loanAmount := e_amount;
     err_interestRate := e_rate;
     err_loanTerm := e_term;
     err_residualPayment := e_residual |}.

(** The value the validation effect stores in [isFormValid]. *)
Definition formValid (inputs : MortgageInputs) (touchedFields : TouchedFields) : bool :=
  let newErrors := validateInputs inputs touchedFields in
  let hasRequiredFields :=
    Qlt_bool 0 (m_loanAmount inputs) && Qle_bool 0 (m_interestRate inputs)
    && Qlt_bool 0 (m_loanTerm inputs) in
  let hasNoErrors := no_errors newErrors in
  let hasAllTouched :=
    touched_loanAmount touchedFields && touched_interestRate touchedFields
    && touched_loanTerm touchedFields in
  hasRequiredFields && hasNoErrors && hasAllTouched.

Section Repayments.

Variable Math_pow_frac : Q -> Q -> Q.

(** [calculateRepayments]: mortgages are always monthly. *)
Definition calculateRepayments (isFormValid : bool) (inputs : MortgageInputs)
  : option CalculationResults :=
  if negb isFormValid then None
  else
    let periodsPerYear := 12 in
    let periodicRate := m_interestRate inputs / 100 / periodsPerYear in
    let totalPeriods := m_loanTerm inputs * periodsPerYear in
    let actualResidual :=
      if m_hasResidualPayment inputs then m_residualPayment inputs else 0 in
    let principalToAmortize := m_loanAmount inputs - actualResidual in
    if Qeq_bool periodicRate 0 then
      let repaymentPerPeriod := principalToAmortize / totalPeriods in
      let totalAmountPayable := principalToAmortize + actualResidual in
      Some {| repaymentPerPeriod := repaymentPerPeriod;
              totalAmountPayable := totalAmountPayable;
              totalInterest := 0;
              periodsPerYear := periodsPerYear;
              totalPeriods := totalPeriods |}
    else
      let powerTerm := Math_pow Math_pow_frac (1 + periodicRate) totalPeriods in
      let repaymentPerPeriod :=
        (principalToAmortize * periodicRate * powerTerm) / (powerTerm - 1) in
      let totalAmountPayable := repaymentPerPeriod * totalPeriods + actualResidual in
      let totalInterest := totalAmountPayable - m_loanAmount inputs in
      Some {| repaymentPerPeriod := repaymentPerPeriod;
              totalAmountPayable := totalAmountPayable;
              totalInterest := totalInterest;
              periodsPerYear := periodsPerYear;
              totalPeriods := totalPeriods |}.

End Repayments.

(** [amortizationSchedule]: the loop is the one of the loan calculator. *)
Definition amortizationSchedule (calculateRepayments : option CalculationResults)
    (isFormValid : bool) (inputs : MortgageInputs) : list AmortizationEntry :=
  match calculateRepayments with
  | None => []
  | Some res =>
    if negb isFormValid then []
    else
      let periodicRate := m_interestRate inputs / 100 / periodsPerYear res in
      let actualResidual :=
        if m_hasResidualPayment inputs then m_residualPayment inputs else 0 in
      let principalToAmortize := m_loanAmount inputs - actualResidual in
      schedule_loop (Z.to_nat (Qfloor (totalPeriods res)))
        (repaymentPerPeriod res) periodicRate (totalPeriods res) 1 principalToAmortize
      ++ (if m_hasResidualPayment inputs && Qlt_bool 0 (m_residualPayment inputs) then
            [ {| paymentNumber := totalPeriods res + 1;
                 paymentAmount := m_residualPayment inputs;
                 principalAmount := m_residualPayment inputs;
                 interestAmount := 0;
                 remainingBalance := 0 |} ]
          else [])
  end.

(** The mortgage as an input of the loan calculator, paid monthly. *)
Definition as_loan (inputs : MortgageInputs) : LoanInputs :=
  {| loanAmount := m_loanAmount inputs;
     interestRate := m_interestRate inputs;
     loanTerm := m_loanTerm inputs;
     repaymentFrequency := monthly;
     hasResidualPayment := m_hasResidualPayment inputs;
     residualPayment := m_residualPayment inputs |}.

(** 800000 at 6.5% over 30 years. *)
Definition mortgage_sample : MortgageInputs :=
  {| m_loanAmount := 800000; m_interestRate := 6.5; m_loanTerm := 30;
     m_hasResidualPayment := false; m_residualPayment := 0 |}.

End Mortgage.

(** ** Observations on the tax breakdown *)

Module TaxRows.

Import Tax.

(** The sum of [taxableAmount] over the bracket lines of a breakdown, the
    offset line left out. *)
Fixpoint taxableTotal (breakdown : list BreakdownLine) : Q :=
  match breakdown with
  | [] => 0
  | line :: breakdown' =>
    (if isOffset line then 0 else taxableAmount line) + taxableTotal breakdown'
  end.

(** A weekly income of 1500. *)
Definition weekly_1500 : TaxInputs := {| income := 1500; incomeFrequency := weekly |}.

End TaxRows.

(** * Facts *)

(** ** Comparisons, [Math.max], [Math.min], whole numbers *)

Lemma Qlt_bool_iff (x y : Q) : Qlt_bool x y = true <-> x < y.
Proof.
  unfold Qlt_bool. rewrite negb_true_iff.
  split; intro H.
  - apply Qnot_le_lt. intro Hle. apply Qle_bool_iff in Hle. congruence.
  - destruct (Qle_bool y x) eqn:E; [|reflexivity].
    apply Qle_bool_iff in E. exfalso. apply (Qlt_not_le _ _ H E).
Qed.

Lemma Qlt_bool_false_iff (x y : Q) : Qlt_bool x y = false <-> y <= x.
Proof.
  unfold Qlt_bool. rewrite negb_false_iff. apply Qle_bool_iff.
Qed.

Lemma Qle_bool_false_iff (x y : Q) : Qle_bool x y = false <-> y < x.
Proof.
  rewrite <- Qlt_bool_iff. unfold Qlt_bool.
  destruct (Qle_bool x y); simpl; intuition congruence.
Qed.

Lemma Qeq_bool_false_iff (x y : Q) : Qeq_bool x y = false <-> ~ x == y.
Proof.
  split.
  - apply Qeq_bool_neq.
  - intro H. destruct (Qeq_bool x y) eqn:E; [|reflexivity].
    apply Qeq_bool_iff in E. contradiction.
Qed.

Lemma Math_max_spec (a b : Q) :
  (a <= b /\ Math_max a b = b) \/ (b < a /\ Math_max a b = a).
Proof.
  unfold Math_max. destruct (Qle_bool a b) eqn:E.
  - left. split; [apply Qle_bool_iff; exact E | reflexivity].
  - right. split; [apply Qle_bool_false_iff; exact E | reflexivity].
Qed.

Lemma Math_min_spec (a b : Q) :
  (a <= b /\ Math_min a b = a) \/ (b < a /\ Math_min a b = b).
Proof.
  unfold Math_min. destruct (Qle_bool a b) eqn:E.
  - left. split; [apply Qle_bool_iff; exact E | reflexivity].
  - right. split; [apply Qle_bool_false_iff; exact E | reflexivity].
Qed.

Lemma is_whole_iff (x : Q) : is_whole x = true <-> exists n : Z, x == inject_Z n.
Proof.
  unfold is_whole. rewrite Qeq_bool_iff. split.
  - intro H. exists (Qfloor x). exact H.
  - intros [n Hn]. rewrite (Qfloor_comp _ _ Hn), Qfloor_Z. exact Hn.
Qed.

Lemma is_whole_inject_Z (x : Q) (n : Z) : x == inject_Z n -> is_whole x = true.
Proof. intro H. apply is_whole_iff. exists n. exact H. Qed.

Lemma inject_Z_le_iff (a b : Z) : inject_Z a <= inject_Z b <-> (a <= b)%Z.
Proof. rewrite Zle_Qle. reflexivity. Qed.

Lemma inject_Z_eq_iff (a b : Z) : inject_Z a == inject_Z b <-> a = b.
Proof. split; [apply inject_Z_injective | intros ->; reflexivity]. Qed.

(** ** Powers *)

Lemma qpow_Qpower (q : Q) (m : nat) : q ^ Z.of_nat m == qpow q m.
Proof.
  induction m as [|m IH].
  - reflexivity.
  - rewrite Nat2Z.inj_succ. unfold Z.succ.
    rewrite Z.add_comm, Qpower_plus' by lia.
    rewrite Qpower_1_r, IH. reflexivity.
Qed.

Lemma qpow_ge_1 (q : Q) (m : nat) : 1 <= q -> 1 <= qpow q m.
Proof.
  intro Hq. induction m as [|m IH]; simpl.
  - apply Qle_refl.
  - nra.
Qed.

Lemma qpow_mono (q : Q) (a b : nat) : 1 <= q -> (a <= b)%nat -> qpow q a <= qpow q b.
Proof.
  intros Hq Hab. induction Hab as [|b Hab IH].
  - apply Qle_refl.
  - simpl. pose proof (qpow_ge_1 q b Hq). nra.
Qed.

Lemma nonneg_factor (a b : Q) : 0 < b -> 0 <= a * b -> 0 <= a.
Proof.
  intros Hb Hab. destruct (Qlt_le_dec a 0) as [Ha|Ha]; [|exact Ha].
  exfalso. assert (H : a * b < 0) by nra. lra.
Qed.

Lemma geom_closed (r : Q) (m : nat) : r * geom (1 + r) m == qpow (1 + r) m - 1.
Proof.
  induction m as [|m IH]; simpl.
  - ring.
  - rewrite Qmult_plus_distr_r, IH. ring.
Qed.

Lemma geom_one (m : nat) (q : Q) : q == 1 -> geom q m == inject_Z (Z.of_nat m) /\ qpow q m == 1.
Proof.
  intro Hq. induction m as [|m [IH1 IH2]].
  - split; reflexivity.
  - split.
    + cbn [geom]. rewrite IH1, IH2, Nat2Z.inj_succ. unfold Z.succ.
      rewrite inject_Z_plus. ring.
    + cbn [qpow]. rewrite IH2, Hq. ring.
Qed.

Lemma geom_ge (q : Q) (m : nat) : 1 <= q -> inject_Z (Z.of_nat m) <= geom q m.
Proof.
  intro Hq. induction m as [|m IH].
  - apply Qle_refl.
  - cbn [geom]. rewrite Nat2Z.inj_succ. unfold Z.succ. rewrite inject_Z_plus.
    pose proof (qpow_ge_1 q m Hq). change (inject_Z 1) with 1. lra.
Qed.


Module LoanFacts.

Import Loan.

(** ** The repayment *)

Section RepaymentFacts.

Variable Math_pow_frac : Q -> Q -> Q.

Lemma periodsPerYearOf_pos (f : RepaymentFrequency) : 0 < periodsPerYearOf f.
Proof. destruct f; reflexivity. Qed.

Lemma guard_iff (i : LoanInputs) :
  Qle_bool (loanAmount i) 0 || Qlt_bool (interestRate i) 0 || Qle_bool (loanTerm i) 0 = true
  <-> loanAmount i <= 0 \/ interestRate i < 0 \/ loanTerm i <= 0.
Proof.
  rewrite !orb_true_iff, !Qle_bool_iff, Qlt_bool_iff. tauto.
Qed.

Lemma guard_valid (i : LoanInputs) :
  valid i ->
  Qle_bool (loanAmount i) 0 || Qlt_bool (interestRate i) 0 || Qle_bool (loanTerm i) 0 = false.
Proof.
  intros (Ha & Hr & Ht & _).
  match goal with |- ?b = false => destruct b eqn:E end; [|reflexivity].
  apply guard_iff in E. lra.
Qed.

(** C1 (amended).  [calculateLoanRepayments] returns [null] exactly when
    the loan amount is not positive, the interest rate is negative or the
    loan term is not positive; on every other input, whatever the residual
    flag and the residual payment are, it returns a complete result. *)
Theorem calculateLoanRepayments_null_iff : forall i : LoanInputs,
  calculateLoanRepayments Math_pow_frac i = None
  <-> (loanAmount i <= 0 \/ interestRate i < 0 \/ loanTerm i <= 0).
Proof.
  intro i. rewrite <- guard_iff. unfold calculateLoanRepayments.
  destruct (Qle_bool (loanAmount i) 0 || Qlt_bool (interestRate i) 0
            || Qle_bool (loanTerm i) 0).
  - tauto.
  - destruct (Qeq_bool _ 0); split; intro H; discriminate H.
Qed.

(** The check of the residual payment against the loan amount is made by
    the form: once the residual field is touched, the form is not valid and
    [calculateRepayments] returns [null]. *)
Lemma calculateRepayments_residual_checked (i : LoanInputs) (t : TouchedFields) :
  hasResidualPayment i = true -> touched_residualPayment t = true ->
  loanAmount i <= residualPayment i ->
  calculateRepayments Math_pow_frac (formValid i t) i = None.
Proof.
  intros Hf Ht Hle. unfold calculateRepayments, formValid, validateInputs, no_errors.
  rewrite Hf, Ht. apply Qle_bool_iff in Hle. rewrite Hle. cbn.
  repeat match goal with
         | |- context [if ?b then Some _ else None] => destruct b
         end; reflexivity.
Qed.

(** Behind their guards the engine and the component compute the same
    result. *)
Lemma calculateRepayments_engine (i : LoanInputs) :
  valid i ->
  calculateRepayments Math_pow_frac true i = calculateLoanRepayments Math_pow_frac i.
Proof.
  intro Hv. unfold calculateRepayments, calculateLoanRepayments.
  rewrite (guard_valid i Hv). reflexivity.
Qed.

Lemma periodicRate_zero_iff (i : LoanInputs) :
  periodicRateOf i == 0 <-> interestRate i == 0.
Proof.
  unfold periodicRateOf.
  pose proof (periodsPerYearOf_pos (repaymentFrequency i)) as Hp.
  split; intro H.
  - assert (E : interestRate i ==
                (interestRate i / 100 / periodsPerYearOf (repaymentFrequency i))
                * (100 * periodsPerYearOf (repaymentFrequency i))).
    { field. lra. }
    rewrite E, H. ring.
  - rewrite H. field. lra.
Qed.

(** C3 (amended).  On a valid input whose annual rate is 0 the payment is
    the principal to amortise, [loanAmount - actualResidual], divided by
    the number of periods, and the total interest is 0; it is
    [loanAmount / totalPeriods] when the residual flag is disabled. *)
Theorem zero_rate_repayment : forall i : LoanInputs,
  valid i -> interestRate i == 0 ->
  exists r, calculateLoanRepayments Math_pow_frac i = Some r
    /\ totalPeriods r = loanTerm i * periodsPerYearOf (repaymentFrequency i)
    /\ repaymentPerPeriod r == (loanAmount i - actualResidualOf i) / totalPeriods r
    /\ totalInterest r = 0
    /\ (hasResidualPayment i = false ->
        repaymentPerPeriod r == loanAmount i / totalPeriods r).
Proof.
  intros i Hv Hr. unfold calculateLoanRepayments.
  rewrite (guard_valid i Hv).
  apply periodicRate_zero_iff, Qeq_bool_iff in Hr. unfold periodicRateOf in Hr.
  rewrite Hr. eexists. split; [reflexivity|]. cbn.
  repeat split; try reflexivity.
  intro Hf. unfold actualResidualOf. rewrite Hf.
  unfold Qminus. rewrite Qplus_0_r. reflexivity.
Qed.

(** C10.  When the residual flag is disabled the repayment and the
    schedule do not depend on the residual payment: two inputs with the
    flag off and equal in every other field give the same result and, for
    any result passed in, the same schedule. *)
Theorem residualPayment_ignored_when_disabled : forall i1 i2 : LoanInputs,
  hasResidualPayment i1 = false -> hasResidualPayment i2 = false ->
  loanAmount i1 = loanAmount i2 -> interestRate i1 = interestRate i2 ->
  loanTerm i1 = loanTerm i2 -> repaymentFrequency i1 = repaymentFrequency i2 ->
  calculateLoanRepayments Math_pow_frac i1 = calculateLoanRepayments Math_pow_frac i2
  /\ (forall res, generateAmortizationSchedule i1 res = generateAmortizationSchedule i2 res)
  /\ generateAmortizationSchedule i1 (calculateLoanRepayments Math_pow_frac i1)
     = generateAmortizationSchedule i2 (calculateLoanRepayments Math_pow_frac i2).
Proof.
  intros [a1 r1 t1 f1 h1 x1] [a2 r2 t2 f2 h2 x2]; cbn.
  intros -> -> -> -> -> ->.
  assert (E : calculateLoanRepayments Math_pow_frac
                {| loanAmount := a2; interestRate := r2; loanTerm := t2;
                   repaymentFrequency := f2; hasResidualPayment := false;
                   residualPayment := x1 |}
              = calculateLoanRepayments Math_pow_frac
                {| loanAmount := a2; interestRate := r2; loanTerm := t2;
                   repaymentFrequency := f2; hasResidualPayment := false;
                   residualPayment := x2 |}) by reflexivity.
  assert (G : forall res,
             generateAmortizationSchedule
               {| loanAmount := a2; interestRate := r2; loanTerm := t2;
                  repaymentFrequency := f2; hasResidualPayment := false;
                  residualPayment := x1 |} res
             = generateAmortizationSchedule
               {| loanAmount := a2; interestRate := r2; loanTerm := t2;
                  repaymentFrequency := f2; hasResidualPayment := false;
                  residualPayment := x2 |} res).
  { intros [res|]; reflexivity. }
  split; [exact E|]. split; [exact G|].
  rewrite E. apply G.
Qed.

End RepaymentFacts.

(** ** The loop of the schedule *)

Section LoopFacts.

Variables pmt r tp : Q.

Lemma schedule_loop_S (fuel : nat) (k : Z) (bal : Q) :
  schedule_loop (S fuel) pmt r tp k bal =
  if Qle_bool (inject_Z k) tp then
    if Qeq_bool (inject_Z k) tp then
      {| paymentNumber := inject_Z k;
         paymentAmount := bal + bal * r;
         principalAmount := bal;
         interestAmount := bal * r;
         remainingBalance := 0 |}
      :: schedule_loop fuel pmt r tp (k + 1) bal
    else
      {| paymentNumber := inject_Z k;
         paymentAmount := pmt;
         principalAmount := pmt - bal * r;
         interestAmount := bal * r;
         remainingBalance := Math_max 0 (bal - (pmt - bal * r)) |}
      :: schedule_loop fuel pmt r tp (k + 1) (bal - (pmt - bal * r))
  else [].
Proof. reflexivity. Qed.

Lemma loop_past_end (fuel : nat) (k : Z) (bal : Q) :
  tp < inject_Z k -> schedule_loop fuel pmt r tp k bal = [].
Proof.
  intro H. destruct fuel; [reflexivity|].
  rewrite schedule_loop_S. apply Qle_bool_false_iff in H. rewrite H. reflexivity.
Qed.

Lemma floor_lt_past (k : Z) : (Qfloor tp < k)%Z -> tp < inject_Z k.
Proof.
  intro H. apply Qlt_le_trans with (inject_Z (Qfloor tp + 1)).
  - apply Qlt_floor.
  - apply inject_Z_le_iff. lia.
Qed.

(** The loop ends because its condition fails, not because the fuel runs
    out: any larger fuel gives the same entries. *)
Lemma loop_fuel_enough (fuel extra : nat) (k : Z) (bal : Q) :
  (Qfloor tp < k + Z.of_nat fuel)%Z ->
  schedule_loop (fuel + extra) pmt r tp k bal = schedule_loop fuel pmt r tp k bal.
Proof.
  revert k bal. induction fuel as [|fuel IH]; intros k bal H.
  - cbn [schedule_loop]. apply loop_past_end, floor_lt_past. lia.
  - cbn [Nat.add]. rewrite !schedule_loop_S.
    destruct (Qle_bool (inject_Z k) tp); [|reflexivity].
    destruct (Qeq_bool (inject_Z k) tp); f_equal; apply IH; lia.
Qed.

(** Every entry the loop pushes is a regular entry with the nominal
    payment or the adjusted final entry. *)
Lemma loop_consistent (res : CalculationResults) (fuel : nat) (k : Z) (bal : Q) :
  repaymentPerPeriod res = pmt ->
  Forall (entry_consistent res) (schedule_loop fuel pmt r tp k bal).
Proof.
  intro Hpmt. revert k bal. induction fuel as [|fuel IH]; intros k bal.
  - constructor.
  - rewrite schedule_loop_S.
    destruct (Qle_bool (inject_Z k) tp); [|constructor].
    destruct (Qeq_bool (inject_Z k) tp); constructor; try apply IH.
    + right. left. split; reflexivity.
    + left. split; [symmetry; exact Hpmt | reflexivity].
Qed.

(** *** A whole number of periods *)

Variable n : Z.
Hypothesis tp_whole : tp == inject_Z n.

Lemma cond_true (k : Z) : (k <= n)%Z -> Qle_bool (inject_Z k) tp = true.
Proof. intro H. rewrite tp_whole. apply Qle_bool_iff, inject_Z_le_iff. exact H. Qed.

Lemma final_test (k : Z) : Qeq_bool (inject_Z k) tp = (k =? n)%Z.
Proof.
  rewrite tp_whole. destruct (Z.eqb_spec k n) as [->|Hne].
  - apply Qeq_bool_refl.
  - apply Qeq_bool_false_iff. intro H. apply Hne, inject_Z_injective, H.
Qed.

Lemma loop_step_last (fuel : nat) (bal : Q) :
  schedule_loop (S fuel) pmt r tp n bal =
  [ {| paymentNumber := inject_Z n;
       paymentAmount := bal + bal * r;
       principalAmount := bal;
       interestAmount := bal * r;
       remainingBalance := 0 |} ].
Proof.
  rewrite schedule_loop_S, cond_true, final_test, Z.eqb_refl by lia.
  f_equal. apply loop_past_end. rewrite tp_whole. rewrite <- Zlt_Qlt. lia.
Qed.

Lemma loop_step_regular (fuel : nat) (k : Z) (bal : Q) :
  (k < n)%Z ->
  schedule_loop (S fuel) pmt r tp k bal =
  {| paymentNumber := inject_Z k;
     paymentAmount := pmt;
     principalAmount := pmt - bal * r;
     interestAmount := bal * r;
     remainingBalance := Math_max 0 (bal - (pmt - bal * r)) |}
  :: schedule_loop fuel pmt r tp (k + 1) (bal - (pmt - bal * r)).
Proof.
  intro H. rewrite schedule_loop_S, cond_true, final_test by lia.
  destruct (Z.eqb_spec k n); [lia | reflexivity].
Qed.

(** With [m] periods left after period [k], the loop pushes [m + 1]
    entries and the last of them closes the balance. *)
Lemma loop_last_whole (m : nat) (k : Z) (bal : Q) :
  (k + Z.of_nat m = n)%Z ->
  List.length (schedule_loop (S m) pmt r tp k bal) = S m
  /\ exists e, last_entry (schedule_loop (S m) pmt r tp k bal) = Some e
       /\ paymentNumber e == tp /\ remainingBalance e = 0.
Proof.
  revert k bal. induction m as [|m IH]; intros k bal H.
  - replace k with n by lia. rewrite loop_step_last. split; [reflexivity|].
    eexists. split; [reflexivity|]. cbn. split; [symmetry; exact tp_whole | reflexivity].
  - rewrite loop_step_regular by lia.
    destruct (IH (k + 1)%Z (bal - (pmt - bal * r))) as (Hlen & e & He & Hp & Hb); [lia|].
    split; [cbn [List.length]; rewrite Hlen; reflexivity|].
    exists e. split; [|split; assumption].
    cbn [last_entry]. destruct (schedule_loop (S m) pmt r tp (k + 1) _) eqn:E.
    + discriminate Hlen.
    + exact He.
Qed.

(** With [m] periods left after period [k], the loop pushes [m] entries
    with the nominal payment and then the adjusted final entry, whose
    principal part is the balance [bal] less the principal parts of the
    entries before it, subtracted one after the other as the loop does. *)
Lemma loop_exhausts (m : nat) : forall (k : Z) (bal : Q),
  (k + Z.of_nat m = n)%Z ->
  exists (earlier : list AmortizationEntry) (final : AmortizationEntry),
    schedule_loop (S m) pmt r tp k bal = earlier ++ [final]
    /\ List.length earlier = m
    /\ principalAmount final = fold_left Qminus (map principalAmount earlier) bal
    /\ Forall (fun e => paymentAmount e = pmt) earlier
    /\ paymentAmount final = principalAmount final + interestAmount final.
Proof.
  induction m as [|m IH]; intros k bal H.
  - replace k with n by lia. rewrite loop_step_last.
    eexists [], _. split; [reflexivity|]. split; [reflexivity|].
    split; [reflexivity|]. split; [constructor | reflexivity].
  - rewrite loop_step_regular by lia.
    destruct (IH (k + 1)%Z (bal - (pmt - bal * r))) as (earlier & final & E & Hl & Hp & Hpay & Hf);
      [lia|].
    rewrite E. eexists (_ :: earlier), final.
    split; [reflexivity|]. split; [cbn [List.length]; rewrite Hl; reflexivity|].
    split; [exact Hp|]. split; [|exact Hf].
    constructor; [reflexivity | exact Hpay].
Qed.

End LoopFacts.

(** ** Interest and principal along the loop *)

Section LoopOrdered.

Variables pmt r tp : Q.

Hypothesis r_nonneg : 0 <= r.

(** From a balance whose interest the nominal payment covers, the loop
    pushes entries of falling interest and, up to the adjusted final one,
    of rising principal part: the principal part of an entry lowers the
    balance, a lower balance bears less interest, and what the payment
    does not spend on interest is principal. *)
Lemma loop_ordered (fuel : nat) : forall (k : Z) (bal : Q),
  0 <= pmt - bal * r ->
  Sorted interest_nonincreasing (schedule_loop fuel pmt r tp k bal)
  /\ Sorted (principal_nondecreasing_until tp) (schedule_loop fuel pmt r tp k bal)
  /\ (forall a, bal * r <= interestAmount a ->
        HdRel interest_nonincreasing a (schedule_loop fuel pmt r tp k bal))
  /\ (forall a, principalAmount a <= pmt - bal * r ->
        HdRel (principal_nondecreasing_until tp) a (schedule_loop fuel pmt r tp k bal)).
Proof.
  induction fuel as [|fuel IH]; intros k bal Hp.
  - cbn [schedule_loop]. repeat split; intros; constructor.
  - rewrite schedule_loop_S.
    destruct (Qle_bool (inject_Z k) tp); [|repeat split; intros; constructor].
    destruct (Qeq_bool (inject_Z k) tp) eqn:Efin.
    + apply Qeq_bool_iff in Efin.
      assert (Hend : schedule_loop fuel pmt r tp (k + 1) bal = []).
      { apply loop_past_end. rewrite <- Efin. rewrite <- Zlt_Qlt. lia. }
      rewrite Hend. split; [|split; [|split]].
      * repeat constructor.
      * repeat constructor.
      * intros a Ha. constructor. exact Ha.
      * intros a _. constructor. left. exact Efin.
    + assert (Hpr : 0 <= (pmt - bal * r) * r) by (apply Qmult_le_0_compat; assumption).
      assert (Hnext : 0 <= pmt - (bal - (pmt - bal * r)) * r) by lra.
      destruct (IH (k + 1)%Z (bal - (pmt - bal * r)) Hnext) as (Hi & Hq & Hhi & Hhq).
      split; [|split; [|split]].
      * constructor; [exact Hi|]. apply Hhi. cbn [interestAmount]. lra.
      * constructor; [exact Hq|]. apply Hhq. cbn [principalAmount]. lra.
      * intros a Ha. constructor. exact Ha.
      * intros a Ha. constructor. right. exact Ha.
Qed.

End LoopOrdered.

(** ** The schedule of a valid input *)

Section ScheduleFacts.

Variable Math_pow_frac : Q -> Q -> Q.

Lemma Math_pow_whole (b e : Q) (n : Z) :
  e == inject_Z n -> Math_pow Math_pow_frac b e = b ^ n.
Proof.
  intro H. unfold Math_pow. rewrite (is_whole_inject_Z e n H).
  rewrite (Qfloor_comp _ _ H), Qfloor_Z. reflexivity.
Qed.

Lemma periodicRateOf_nonneg (i : LoanInputs) : valid i -> 0 <= periodicRateOf i.
Proof.
  intros (_ & Hr & _). unfold periodicRateOf.
  pose proof (periodsPerYearOf_pos (repaymentFrequency i)) as Hp.
  apply Qle_shift_div_l; [exact Hp|]. apply Qle_shift_div_l; [reflexivity|]. lra.
Qed.

Lemma periodicRateOf_pos (i : LoanInputs) : 0 < interestRate i -> 0 < periodicRateOf i.
Proof.
  intros Hr. unfold periodicRateOf.
  pose proof (periodsPerYearOf_pos (repaymentFrequency i)) as Hp.
  apply Qlt_shift_div_l; [exact Hp|]. apply Qlt_shift_div_l; [reflexivity|]. lra.
Qed.

Lemma totalPeriodsOf_pos (i : LoanInputs) : valid i -> 0 < totalPeriodsOf i.
Proof.
  intros (_ & _ & Ht & _). unfold totalPeriodsOf.
  pose proof (periodsPerYearOf_pos (repaymentFrequency i)) as Hp. nra.
Qed.

Lemma principalToAmortizeOf_pos (i : LoanInputs) : valid i -> 0 < principalToAmortizeOf i.
Proof.
  intros (Ha & _ & _ & Hx & Hlt). unfold principalToAmortizeOf, actualResidualOf.
  destruct (hasResidualPayment i).
  - specialize (Hlt eq_refl). lra.
  - lra.
Qed.

(** The result of [calculateLoanRepayments] on a valid input, by the two
    branches of the function. *)
Lemma calculateLoanRepayments_valid (i : LoanInputs) :
  valid i ->
  exists res, calculateLoanRepayments Math_pow_frac i = Some res
    /\ totalPeriods res = totalPeriodsOf i
    /\ periodsPerYear res = periodsPerYearOf (repaymentFrequency i)
    /\ ((interestRate i == 0
         /\ repaymentPerPeriod res = principalToAmortizeOf i / totalPeriodsOf i
         /\ totalAmountPayable res = principalToAmortizeOf i + actualResidualOf i
         /\ totalInterest res = 0)
        \/
        (0 < interestRate i
         /\ repaymentPerPeriod res =
              (principalToAmortizeOf i * periodicRateOf i
               * Math_pow Math_pow_frac (1 + periodicRateOf i) (totalPeriodsOf i))
              / (Math_pow Math_pow_frac (1 + periodicRateOf i) (totalPeriodsOf i) - 1)
         /\ totalAmountPayable res =
              repaymentPerPeriod res * totalPeriodsOf i + actualResidualOf i
         /\ totalInterest res = totalAmountPayable res - loanAmount i)).
Proof.
  intro Hv. unfold calculateLoanRepayments. rewrite (guard_valid i Hv).
  fold (periodicRateOf i) (totalPeriodsOf i) (principalToAmortizeOf i).
  destruct (Qeq_bool (periodicRateOf i) 0) eqn:E.
  - eexists. split; [reflexivity|]. cbn. repeat split. left.
    apply Qeq_bool_iff, periodicRate_zero_iff in E. repeat split. exact E.
  - eexists. split; [reflexivity|]. cbn. repeat split. right.
    apply Qeq_bool_false_iff in E. rewrite periodicRate_zero_iff in E.
    destruct Hv as (_ & Hr & _). repeat split.
    destruct (Qlt_le_dec 0 (interestRate i)) as [H|H]; [exact H|].
    exfalso. apply E. lra.
Qed.

Lemma regularEntries_eq (i : LoanInputs) (res : CalculationResults) :
  periodsPerYear res = periodsPerYearOf (repaymentFrequency i) ->
  totalPeriods res = totalPeriodsOf i ->
  regularEntries i res =
  schedule_loop (Z.to_nat (Qfloor (totalPeriodsOf i))) (repaymentPerPeriod res)
    (periodicRateOf i) (totalPeriodsOf i) 1 (principalToAmortizeOf i).
Proof.
  intros Hp Ht. unfold regularEntries. rewrite Hp, Ht. reflexivity.
Qed.

(** The loop of [generateAmortizationSchedule] stops by its own
    condition: the entries are the same with any larger bound on the
    number of iterations. *)
Lemma regularEntries_total (i : LoanInputs) (res : CalculationResults) (extra : nat) :
  schedule_loop (Z.to_nat (Qfloor (totalPeriods res)) + extra) (repaymentPerPeriod res)
    (interestRate i / 100 / periodsPerYear res) (totalPeriods res) 1
    (loanAmount i - actualResidualOf i)
  = regularEntries i res.
Proof.
  unfold regularEntries. apply loop_fuel_enough. lia.
Qed.

(** The periods of a valid input with a whole number of periods. *)
Lemma whole_periods_count (i : LoanInputs) :
  valid i -> whole_periods i ->
  exists m : nat,
    totalPeriodsOf i == inject_Z (Z.of_nat (S m))
    /\ Z.to_nat (Qfloor (totalPeriodsOf i)) = S m.
Proof.
  intros Hv Hw. pose proof (totalPeriodsOf_pos i Hv) as Hpos.
  unfold whole_periods, is_whole in Hw. apply Qeq_bool_iff in Hw.
  assert (Hn : (0 < Qfloor (totalPeriodsOf i))%Z).
  { rewrite Zlt_Qlt. rewrite <- Hw. exact Hpos. }
  exists (Z.to_nat (Qfloor (totalPeriodsOf i) - 1)).
  assert (E : Z.of_nat (S (Z.to_nat (Qfloor (totalPeriodsOf i) - 1)))
              = Qfloor (totalPeriodsOf i)) by lia.
  split.
  - rewrite E. exact Hw.
  - lia.
Qed.

(** The nominal payment pays the principal to amortise off in the periods
    of the loan. *)
Lemma repayment_closes (i : LoanInputs) (res : CalculationResults) (m : nat) :
  valid i -> calculateLoanRepayments Math_pow_frac i = Some res ->
  totalPeriodsOf i == inject_Z (Z.of_nat (S m)) ->
  principalToAmortizeOf i * qpow (1 + periodicRateOf i) (S m)
  == repaymentPerPeriod res * geom (1 + periodicRateOf i) (S m).
Proof.
  intros Hv Hres Htp.
  destruct (calculateLoanRepayments_valid i Hv) as (res' & Hres' & _ & _ & Hcase).
  rewrite Hres in Hres'. injection Hres' as <-.
  set (P := principalToAmortizeOf i) in *.
  set (pr := periodicRateOf i) in *.
  set (X := qpow (1 + pr) (S m)). set (G := geom (1 + pr) (S m)).
  destruct Hcase as [(Hz & Hpmt & _) | (Hpos & Hpmt & _)]; rewrite Hpmt.
  - assert (Hpr : pr == 0) by (apply periodicRate_zero_iff; exact Hz).
    assert (Hq : 1 + pr == 1) by (rewrite Hpr; ring).
    destruct (geom_one (S m) (1 + pr) Hq) as (HG & HX).
    fold G in HG. fold X in HX. rewrite HX, HG, Htp.
    field. intro H0.
    assert (Hm : inject_Z 0 < inject_Z (Z.of_nat (S m))) by (rewrite <- Zlt_Qlt; lia).
    rewrite H0 in Hm. discriminate Hm.
  - assert (Hpr : 0 < pr) by (apply periodicRateOf_pos; exact Hpos).
    rewrite (Math_pow_whole _ _ _ Htp), qpow_Qpower. fold X.
    pose proof (geom_closed pr (S m)) as HG. fold X G in HG.
    assert (HG1 : 1 <= G).
    { pose proof (geom_ge (1 + pr) (S m)) as H. fold G in H.
      assert (H1 : 1 <= inject_Z (Z.of_nat (S m))).
      { change 1 with (inject_Z 1). apply inject_Z_le_iff. lia. }
      apply Qle_trans with (inject_Z (Z.of_nat (S m))); [exact H1|].
      apply H. lra. }
    assert (HX : 0 < X - 1) by nra.
    assert (E : X - 1 == pr * G) by (symmetry; exact HG).
    rewrite E. field. split; lra.
Qed.

(** With a whole number of periods the loop pushes one entry per period. *)
Lemma regularEntries_length (i : LoanInputs) (res : CalculationResults) :
  valid i -> whole_periods i ->
  calculateLoanRepayments Math_pow_frac i = Some res ->
  List.length (regularEntries i res) = Z.to_nat (Qfloor (totalPeriodsOf i)).
Proof.
  intros Hv Hw Hres.
  destruct (calculateLoanRepayments_valid i Hv) as (res' & Hres' & Htp & Hppy & _).
  rewrite Hres in Hres'. injection Hres' as <-.
  destruct (whole_periods_count i Hv Hw) as (m & Hm & Hfuel).
  rewrite (regularEntries_eq i res Hppy Htp), Hfuel.
  apply (loop_last_whole _ _ _ _ Hm m 1 (principalToAmortizeOf i)). lia.
Qed.

End ScheduleFacts.

(** ** The entries of the schedule, for any result passed in *)

(** A whole number of periods, at least one. *)
Lemma whole_number_count (tp : Q) :
  is_whole tp = true -> 1 <= tp ->
  exists m : nat, tp == inject_Z (Z.of_nat (S m)) /\ Z.to_nat (Qfloor tp) = S m.
Proof.
  intros Hw H1. unfold is_whole in Hw. apply Qeq_bool_iff in Hw.
  assert (Hn : (1 <= Qfloor tp)%Z).
  { rewrite Zle_Qle. rewrite <- Hw. exact H1. }
  exists (Z.to_nat (Qfloor tp - 1)).
  assert (E : Z.of_nat (S (Z.to_nat (Qfloor tp - 1))) = Qfloor tp) by lia.
  split.
  - rewrite E. exact Hw.
  - lia.
Qed.

(** C4 (amended).  Whatever the input and the result passed in, every
    entry of the schedule relates payment, principal part and interest by
    one operation of the code: a regular entry pays the nominal payment
    and has [principalAmount = paymentAmount - interestAmount], the
    adjusted final entry has
    [paymentAmount = principalAmount + interestAmount] and balance 0, and
    the residual entry has [paymentAmount = principalAmount], interest 0
    and balance 0.  When [totalPeriods] is a whole number, at least 1, the
    last regular entry has index [totalPeriods] and remaining balance
    exactly 0. *)
Theorem schedule_entries_consistent_and_closed :
  forall (i : LoanInputs) (res : CalculationResults),
    Forall (entry_consistent res) (generateAmortizationSchedule i (Some res))
    /\ (is_whole (totalPeriods res) = true -> 1 <= totalPeriods res ->
        exists e, last_entry (regularEntries i res) = Some e
          /\ paymentNumber e == totalPeriods res
          /\ remainingBalance e = 0).
Proof.
  intros i res. split.
  - cbn [generateAmortizationSchedule]. apply Forall_app. split.
    + apply loop_consistent. reflexivity.
    + unfold residualEntry. destruct (_ && _); [|constructor].
      constructor; [|constructor]. right. right. repeat split.
  - intros Hw H1. destruct (whole_number_count _ Hw H1) as (m & Hm & Hfuel).
    unfold regularEntries. rewrite Hfuel.
    apply (loop_last_whole _ _ _ _ Hm m 1). lia.
Qed.



(** *** The same in exact arithmetic

    With exact operations the relations above give the equations of the
    entries and of their principal parts.  The source rounds each
    operation, so there they hold up to that rounding only. *)

Lemma entry_consistent_exact (res : CalculationResults) (e : AmortizationEntry) :
  entry_consistent res e -> principalAmount e + interestAmount e == paymentAmount e.
Proof.
  intros [(_ & Hp) | [(Hp & _) | (Hp & Hi & _)]].
  - rewrite Hp. ring.
  - rewrite Hp. reflexivity.
  - rewrite Hp, Hi. ring.
Qed.

Lemma fold_minus_exact (l : list AmortizationEntry) : forall b : Q,
  fold_left Qminus (map principalAmount l) b == b - sum_of principalAmount l.
Proof.
  induction l as [|a l IH]; intro b; cbn [map fold_left sum_of].
  - ring.
  - rewrite IH. ring.
Qed.

Lemma principal_parts_exact (earlier : list AmortizationEntry) (final : AmortizationEntry)
    (b : Q) :
  principalAmount final = fold_left Qminus (map principalAmount earlier) b ->
  sum_of principalAmount earlier + principalAmount final == b.
Proof.
  intro H. rewrite H, fold_minus_exact. ring.
Qed.

Lemma Sorted_adjacent_all (l : list AmortizationEntry) :
  Sorted principal_nondecreasing l ->
  adjacent_all (fun a b => Qle_bool (principalAmount a) (principalAmount b)) l = true.
Proof.
  induction l as [|a l IH]; [reflexivity|].
  intro H. inversion H as [|? ? Hs Hd]; subst.
  destruct l as [|b l']; [reflexivity|].
  inversion Hd as [|? ? Hab]; subst.
  change (Qle_bool (principalAmount a) (principalAmount b)
          && adjacent_all
               (fun a b => Qle_bool (principalAmount a) (principalAmount b))
               (b :: l') = true).
  rewrite (IH Hs), andb_true_r. apply Qle_bool_iff. exact Hab.
Qed.

(** *** Concrete loans *)

Ltac concrete_valid :=
  unfold valid; cbn;
  repeat match goal with
         | |- _ /\ _ => split
         | |- _ -> _ => intro
         end;
  first [ reflexivity | discriminate | lra ].

Lemma loan_fractional_valid : valid loan_fractional.
Proof. concrete_valid. Qed.

Lemma loan_zero_rate_residual_valid : valid loan_zero_rate_residual.
Proof. concrete_valid. Qed.

Lemma loan_small_residual_valid : valid loan_small_residual.
Proof. concrete_valid. Qed.

(** C1, as stated, fails: with the residual flag enabled and a residual
    payment above the loan amount, [calculateLoanRepayments] still returns
    a result (with a negative payment). *)
Lemma residual_above_not_rejected :
  hasResidualPayment loan_residual_above = true
  /\ loanAmount loan_residual_above <= residualPayment loan_residual_above
  /\ exists res, calculateLoanRepayments pow_ceiling loan_residual_above = Some res
       /\ repaymentPerPeriod res < 0.
Proof.
  split; [reflexivity|]. split; [discriminate|].
  eexists. split; [reflexivity|]. reflexivity.
Qed.

(** C3, as stated, fails: with a residual payment the zero-rate payment is
    not [loanAmount / totalPeriods]. *)
Lemma zero_rate_residual_payment :
  valid loan_zero_rate_residual
  /\ interestRate loan_zero_rate_residual == 0
  /\ exists res, calculateLoanRepayments pow_ceiling loan_zero_rate_residual = Some res
       /\ repaymentPerPeriod res == 500
       /\ ~ repaymentPerPeriod res == loanAmount loan_zero_rate_residual / totalPeriods res.
Proof.
  split; [exact loan_zero_rate_residual_valid|]. split; [reflexivity|].
  eexists. split; [reflexivity|]. split; [reflexivity|].
  intro H. vm_compute in H. discriminate H.
Qed.

(** C4, as stated, fails: with 1.5 periods the loop pushes one entry, never
    takes the final branch, and the last regular entry keeps a balance of
    400. *)
Lemma fractional_periods_balance_open :
  valid loan_fractional
  /\ exists res e, calculateLoanRepayments pow_ceiling loan_fractional = Some res
       /\ last_entry (regularEntries loan_fractional res) = Some e
       /\ remainingBalance e == 400
       /\ ~ remainingBalance e == 0.
Proof.
  split; [exact loan_fractional_valid|].
  eexists. eexists. split; [reflexivity|]. split; [reflexivity|].
  split; [reflexivity|]. intro H. vm_compute in H. discriminate H.
Qed.



(** *** The loans of the unit tests *)

Example loan_standard_result :
  exists res, calculateLoanRepayments pow_ceiling loan_standard = Some res
    /\ 601.135 < repaymentPerPeriod res /\ repaymentPerPeriod res < 601.145
    /\ 36068.305 < totalAmountPayable res /\ totalAmountPayable res < 36068.315
    /\ 6068.305 < totalInterest res /\ totalInterest res < 6068.315
    /\ totalPeriods res == 60 /\ periodsPerYear res = 12.
Proof.
  eexists. split; [reflexivity|]. repeat split; vm_compute; reflexivity.
Qed.

Example loan_zero_rate_result :
  exists res, calculateLoanRepayments pow_ceiling loan_zero_rate = Some res
    /\ repaymentPerPeriod res == 1000 /\ totalAmountPayable res == 12000
    /\ totalInterest res = 0 /\ totalPeriods res == 12.
Proof.
  eexists. split; [reflexivity|]. repeat split; vm_compute; reflexivity.
Qed.

Example loan_balloon_result :
  exists res, calculateLoanRepayments pow_ceiling loan_balloon = Some res
    /\ 732.385 < repaymentPerPeriod res /\ repaymentPerPeriod res < 732.395
    /\ 45154.605 < totalAmountPayable res /\ totalAmountPayable res < 45154.615.
Proof.
  eexists. split; [reflexivity|]. repeat split; vm_compute; reflexivity.
Qed.

Example loan_two_years_balloon_length :
  exists res, calculateLoanRepayments pow_ceiling loan_two_years_balloon = Some res
    /\ List.length (generateAmortizationSchedule loan_two_years_balloon (Some res)) = 25%nat.
Proof.
  assert (Hv : valid loan_two_years_balloon) by concrete_valid.
  destruct (calculateLoanRepayments_valid pow_ceiling _ Hv) as (res & Hres & _).
  exists res. split; [exact Hres|].
  cbn [generateAmortizationSchedule]. rewrite length_app.
  rewrite (regularEntries_length pow_ceiling _ res Hv eq_refl Hres). reflexivity.
Qed.

Example loan_one_year_first_entry :
  exists res e l, calculateLoanRepayments pow_ceiling loan_one_year = Some res
    /\ generateAmortizationSchedule loan_one_year (Some res) = e :: l
    /\ paymentNumber e == 1 /\ interestAmount e == 60
    /\ remainingBalance e < 12000.
Proof.
  eexists. eexists. eexists. split; [reflexivity|].
  split; [reflexivity|]. repeat split; vm_compute; reflexivity.
Qed.

(** *** The statements at concrete loans *)

Lemma zero_rate_repayment_witness :
  valid loan_zero_rate /\ interestRate loan_zero_rate == 0
  /\ exists r, calculateLoanRepayments pow_ceiling loan_zero_rate = Some r
       /\ totalPeriods r
          = loanTerm loan_zero_rate * periodsPerYearOf (repaymentFrequency loan_zero_rate)
       /\ repaymentPerPeriod r
          == (loanAmount loan_zero_rate - actualResidualOf loan_zero_rate) / totalPeriods r
       /\ totalInterest r = 0
       /\ (hasResidualPayment loan_zero_rate = false ->
           repaymentPerPeriod r == loanAmount loan_zero_rate / totalPeriods r).
Proof.
  split; [concrete_valid|]. split; [reflexivity|].
  apply (zero_rate_repayment pow_ceiling loan_zero_rate); [concrete_valid | reflexivity].
Defined.

Lemma schedule_entries_consistent_and_closed_witness :
  exists res, calculateLoanRepayments pow_ceiling loan_balloon = Some res
    /\ is_whole (totalPeriods res) = true /\ 1 <= totalPeriods res
    /\ Forall (entry_consistent res) (generateAmortizationSchedule loan_balloon (Some res))
    /\ exists e, last_entry (regularEntries loan_balloon res) = Some e
         /\ paymentNumber e == totalPeriods res
         /\ remainingBalance e = 0.
Proof.
  eexists. split; [reflexivity|].
  match goal with |- ?A /\ _ => assert (Hw : A) by reflexivity end.
  split; [exact Hw|].
  match goal with |- ?A /\ _ => assert (H1 : A) by (vm_compute; discriminate) end.
  split; [exact H1|].
  match goal with
  | |- Forall (entry_consistent ?r) _ /\ _ =>
    destruct (schedule_entries_consistent_and_closed loan_balloon r) as (Hc & Hlast)
  end.
  split; [exact Hc | exact (Hlast Hw H1)].
Defined.



Lemma residualPayment_ignored_witness :
  hasResidualPayment loan_zero_rate = false
  /\ hasResidualPayment loan_zero_rate_stale = false
  /\ residualPayment loan_zero_rate <> residualPayment loan_zero_rate_stale
  /\ calculateLoanRepayments pow_ceiling loan_zero_rate
     = calculateLoanRepayments pow_ceiling loan_zero_rate_stale
  /\ (forall res, generateAmortizationSchedule loan_zero_rate res
                  = generateAmortizationSchedule loan_zero_rate_stale res)
  /\ generateAmortizationSchedule loan_zero_rate
       (calculateLoanRepayments pow_ceiling loan_zero_rate)
     = generateAmortizationSchedule loan_zero_rate_stale
         (calculateLoanRepayments pow_ceiling loan_zero_rate_stale).
Proof.
  split; [reflexivity|]. split; [reflexivity|]. split; [discriminate|].
  apply (residualPayment_ignored_when_disabled pow_ceiling
           loan_zero_rate loan_zero_rate_stale); reflexivity.
Defined.

End LoanFacts.

(** ** The income tax *)

Module TaxFacts.

Import Tax.

Lemma Math_max_0_comp (a b : Q) : a == b -> Math_max 0 a == Math_max 0 b.
Proof.
  intro H. unfold Math_max. rewrite H. destruct (Qle_bool 0 b); [exact H | reflexivity].
Qed.

Lemma Math_max_0_nonneg (a : Q) : 0 <= Math_max 0 a.
Proof. destruct (Math_max_spec 0 a) as [(H & ->) | (H & ->)]; lra. Qed.

Lemma Math_max_0_of_nonneg (a : Q) : 0 <= a -> Math_max 0 a = a.
Proof. intro H. unfold Math_max. apply Qle_bool_iff in H. rewrite H. reflexivity. Qed.

Lemma Math_max_0_of_nonpos (a : Q) : a <= 0 -> Math_max 0 a == 0.
Proof. intro H. destruct (Math_max_spec 0 a) as [(H' & ->) | (H' & ->)]; lra. Qed.

(** The offset is flat up to 37500, phases down at 5% up to 45000, then
    at 1.5% up to 66667, floored at 0, and is 0 beyond. *)
Lemma calculateLITO_piecewise (x : Q) :
  (x <= 37500 -> calculateLITO x == 700)
  /\ (37500 < x -> x <= 45000 -> calculateLITO x == 700 - (x - 37500) * 0.05)
  /\ (45000 < x -> x <= 66667 ->
      calculateLITO x == Math_max 0 (325 - (x - 45000) * 0.015))
  /\ (66667 < x -> calculateLITO x == 0).
Proof.
  unfold calculateLITO. repeat split; intros.
  - rewrite (proj2 (Qle_bool_iff x 37500)) by assumption. reflexivity.
  - rewrite (proj2 (Qle_bool_false_iff x 37500)) by assumption.
    rewrite (proj2 (Qle_bool_iff x 45000)) by assumption.
    rewrite Math_max_0_of_nonneg; [reflexivity | lra].
  - rewrite (proj2 (Qle_bool_false_iff x 37500)) by lra.
    rewrite (proj2 (Qle_bool_false_iff x 45000)) by assumption.
    rewrite (proj2 (Qle_bool_iff x 66667)) by assumption. reflexivity.
  - rewrite (proj2 (Qle_bool_false_iff x 37500)) by lra.
    rewrite (proj2 (Qle_bool_false_iff x 45000)) by lra.
    rewrite (proj2 (Qle_bool_false_iff x 66667)) by assumption. reflexivity.
Qed.

Lemma calculateLITO_nonneg (x : Q) : 0 <= calculateLITO x.
Proof.
  unfold calculateLITO.
  destruct (Qle_bool x 37500); [discriminate|].
  destruct (Qle_bool x 45000); [apply Math_max_0_nonneg|].
  destruct (Qle_bool x 66667); [apply Math_max_0_nonneg | apply Qle_refl].
Qed.

(** The unrolled brackets of [calculateIncomeTax] are the progressive tax
    over the bracket table. *)
Lemma calculateIncomeTax_brackets (x : Q) :
  calculateIncomeTax x == Math_max 0 (computeBracketTax x - calculateLITO x).
Proof.
  unfold calculateIncomeTax, computeBracketTax, taxBrackets.
  cbn [bracketTaxFrom max rate]. apply Math_max_0_comp.
  destruct (Qlt_bool 0 x), (Qlt_bool 18200 x), (Qlt_bool 45000 x),
    (Qlt_bool 135000 x), (Qlt_bool 190000 x); ring.
Qed.

Lemma tax_formValid_of_valid (i : TaxInputs) (touched_income : bool) :
  valid i -> formValid i touched_income = true.
Proof.
  intros (Hpos & Hmax). unfold formValid, validateInputs.
  rewrite (proj2 (Qle_bool_false_iff (income i) 0)) by exact Hpos.
  rewrite (proj2 (Qlt_bool_false_iff 10000000 (income i))) by exact Hmax.
  rewrite !andb_false_r. apply Qlt_bool_iff. exact Hpos.
Qed.

(** C7.  On a valid input the taxable income is the annualised gross
    income and the income tax is [max(0, B - O)], with [B] the progressive
    tax over the brackets and [O] the low income tax offset. *)
Theorem income_tax_formula : forall (i : TaxInputs) (touched_income : bool),
  valid i ->
  exists res, calculateTax (formValid i touched_income) i = Some res
    /\ grossIncome res = getAnnualIncome (income i) (incomeFrequency i)
    /\ taxableIncome res = grossIncome res
    /\ incomeTax res
       == Math_max 0 (computeBracketTax (taxableIncome res)
                      - calculateLITO (taxableIncome res)).
Proof.
  intros i t Hv. rewrite (tax_formValid_of_valid i t Hv).
  eexists. split; [reflexivity|]. cbn.
  split; [reflexivity|]. split; [reflexivity|].
  apply calculateIncomeTax_brackets.
Qed.

(** The total of the breakdown is the bracket tax less the offset, without
    the floor at 0 of [calculateIncomeTax]. *)
Lemma breakdownTotal_unfloored (res : TaxCalculationResults) :
  breakdownTotal (taxBreakdown (Some res) true)
  == computeBracketTax (grossIncome res) - calculateLITO (grossIncome res).
Proof.
  pose proof (calculateLITO_nonneg (grossIncome res)) as HL.
  unfold taxBreakdown, computeBracketTax, taxBrackets.
  cbn [negb bracketTaxFrom max rate].
  set (x := grossIncome res) in *. set (L := calculateLITO x) in *.
  destruct (Qlt_bool 0 L) eqn:EL.
  - destruct (Qlt_bool 0 x), (Qlt_bool 18200 x), (Qlt_bool 45000 x),
      (Qlt_bool 135000 x), (Qlt_bool 190000 x);
      cbn [app breakdownTotal fold_left taxAmount]; ring.
  - apply Qlt_bool_false_iff in EL.
    assert (HL0 : L == 0) by lra.
    destruct (Qlt_bool 0 x), (Qlt_bool 18200 x), (Qlt_bool 45000 x),
      (Qlt_bool 135000 x), (Qlt_bool 190000 x);
      cbn [app breakdownTotal fold_left taxAmount]; rewrite HL0; ring.
Qed.

(** Where the bracket tax reaches the offset, the total of the breakdown
    is the income tax. *)
Lemma breakdownTotal_incomeTax (i : TaxInputs) (res : TaxCalculationResults) :
  calculateTax true i = Some res ->
  calculateLITO (grossIncome res) <= computeBracketTax (grossIncome res) ->
  breakdownTotal (taxBreakdown (Some res) true) == incomeTax res.
Proof.
  intros Hres Hle. rewrite breakdownTotal_unfloored.
  unfold calculateTax in Hres. cbn [negb] in Hres. injection Hres as <-.
  cbn [grossIncome incomeTax] in *.
  rewrite calculateIncomeTax_brackets, Math_max_0_of_nonneg; [reflexivity | lra].
Qed.

(** C2.  At an annual income of 10000 the breakdown has the tax-free line
    and the offset line, its total is -700, and the income tax is 0: the
    total shown under the breakdown is not the income tax. *)
Theorem breakdown_total_low_income :
  formValid low_income true = true
  /\ exists res, calculateTax (formValid low_income true) low_income = Some res
       /\ incomeTax res == 0
       /\ List.length (taxBreakdown (Some res) (formValid low_income true)) = 2%nat
       /\ breakdownTotal (taxBreakdown (Some res) (formValid low_income true)) == -700.
Proof.
  split; [reflexivity|].
  eexists. split; [reflexivity|].
  split; [reflexivity|]. split; reflexivity.
Qed.

(** An income of whole dollars lies in exactly one bracket of the table. *)
Lemma whole_income_one_bracket (n : Z) :
  (0 <= n)%Z ->
  List.length (filter (in_bracket (inject_Z n)) taxBrackets) = 1%nat.
Proof.
  intro Hn. unfold taxBrackets, in_bracket. cbn [filter min max].
  unfold Qle_bool. cbn [Qnum Qden inject_Z]. rewrite ?Z.mul_1_r.
  repeat match goal with
         | |- context [(?a <=? ?b)%Z] => destruct (Z.leb_spec a b)
         end; cbn; reflexivity || lia.
Qed.

(** C8.  An annual income of 45000.50 is a valid input that no bracket of
    the table contains: [getMarginalTaxRate] falls through to 0 and the
    result reports a marginal rate of 0, while [calculateIncomeTax] taxes
    the income above 45000 at 30%. *)
Theorem marginal_rate_between_brackets :
  formValid income_between_brackets true = true
  /\ existsb (in_bracket 45000.5) taxBrackets = false
  /\ getMarginalTaxRate 45000.5 = 0
  /\ (exists res,
        calculateTax (formValid income_between_brackets true) income_between_brackets
        = Some res
        /\ taxableIncome res = 45000.5 /\ marginalTaxRate res == 0)
  /\ computeBracketTax 45000.5 - computeBracketTax 45000 == 0.5 * 0.30.
Proof.
  split; [reflexivity|]. split; [reflexivity|]. split; [reflexivity|].
  split; [|reflexivity].
  eexists. split; [reflexivity|]. split; reflexivity.
Qed.

(** The figures of the 2024-25 schedule. *)
Example tax_free_threshold : calculateIncomeTax 18200 == 0.
Proof. reflexivity. Qed.

Example bracket_tax_45000 : computeBracketTax 45000 == 0.16 * (45000 - 18200).
Proof. reflexivity. Qed.

Example offset_phased_out : calculateLITO 66667 == 0.
Proof. reflexivity. Qed.

Lemma income_tax_formula_witness :
  valid income_75000
  /\ exists res, calculateTax (formValid income_75000 true) income_75000 = Some res
       /\ grossIncome res = getAnnualIncome (income income_75000) (incomeFrequency income_75000)
       /\ taxableIncome res = grossIncome res
       /\ incomeTax res
          == Math_max 0 (computeBracketTax (taxableIncome res)
                         - calculateLITO (taxableIncome res)).
Proof.
  split; [split; [reflexivity | discriminate]|].
  apply (income_tax_formula income_75000 true). split; [reflexivity | discriminate].
Defined.

End TaxFacts.

(** ** The income annualisation *)

Module AnnualisationFacts.

Import Annualisation.

Lemma periodsPerYear_pos (f : PayFrequency) : 0 < periodsPerYear f.
Proof. destruct f; reflexivity. Qed.

Lemma annualisation_formValid_of_valid (i : AnnualisationInputs) (touched : TouchedFields) :
  valid i -> formValid i touched = true.
Proof.
  intros (Hy & Hp & Hmax). unfold formValid, validateInputs.
  cbn [err_ytdIncome err_paysReceived].
  rewrite (proj2 (Qle_bool_false_iff (ytdIncome i) 0)) by exact Hy.
  rewrite (proj2 (Qle_bool_false_iff (paysReceived i) 0)) by exact Hp.
  rewrite (proj2 (Qlt_bool_false_iff (periodsPerYear (payFrequency i)) (paysReceived i)))
    by exact Hmax.
  rewrite !andb_false_r.
  rewrite (proj2 (Qlt_bool_iff 0 (ytdIncome i))) by exact Hy.
  apply Qlt_bool_iff. exact Hp.
Qed.

(** C9.  On a valid input the result is the average pay
    [ytdIncome / paysReceived], its multiple by the periods of the year,
    the periods left, the average pay times the periods left, and the
    weeks covered by the pays received divided by 4.33. *)
Theorem annualisation_formulas : forall (i : AnnualisationInputs) (touched : TouchedFields),
  valid i ->
  exists res, calculateAnnualisation (formValid i touched) i = Some res
    /\ averagePayAmount res == ytdIncome i / paysReceived i
    /\ annualisedIncome res == averagePayAmount res * periodsPerYear (payFrequency i)
    /\ totalPayPeriodsInYear res = periodsPerYear (payFrequency i)
    /\ remainingPayPeriods res == periodsPerYear (payFrequency i) - paysReceived i
    /\ projectedRemainingIncome res == averagePayAmount res * remainingPayPeriods res
    /\ monthsElapsed res == weeksEquivalent (paysReceived i) (payFrequency i) / 4.33.
Proof.
  intros i t Hv. rewrite (annualisation_formValid_of_valid i t Hv).
  eexists. split; [reflexivity|]. cbn.
  repeat split; try reflexivity.
  unfold weeksEquivalent. destruct (payFrequency i); try reflexivity.
  rewrite Qmult_1_r. reflexivity.
Qed.

Example ytd_13_fortnights_result :
  exists res,
    calculateAnnualisation (formValid ytd_13_fortnights all_touched) ytd_13_fortnights
    = Some res
    /\ averagePayAmount res == 2000 /\ annualisedIncome res == 52000
    /\ remainingPayPeriods res == 13.
Proof.
  eexists. split; [reflexivity|]. repeat split.
Qed.

Lemma annualisation_formulas_witness :
  valid ytd_13_fortnights
  /\ exists res,
       calculateAnnualisation (formValid ytd_13_fortnights all_touched) ytd_13_fortnights
       = Some res
       /\ averagePayAmount res == ytdIncome ytd_13_fortnights / paysReceived ytd_13_fortnights
       /\ annualisedIncome res
          == averagePayAmount res * periodsPerYear (payFrequency ytd_13_fortnights)
       /\ totalPayPeriodsInYear res = periodsPerYear (payFrequency ytd_13_fortnights)
       /\ remainingPayPeriods res
          == periodsPerYear (payFrequency ytd_13_fortnights) - paysReceived ytd_13_fortnights
       /\ projectedRemainingIncome res == averagePayAmount res * remainingPayPeriods res
       /\ monthsElapsed res
          == weeksEquivalent (paysReceived ytd_13_fortnights)
               (payFrequency ytd_13_fortnights) / 4.33.
Proof.
  split; [split; [reflexivity | split; [reflexivity | discriminate]]|].
  apply (annualisation_formulas ytd_13_fortnights all_touched).
  split; [reflexivity | split; [reflexivity | discriminate]].
Defined.

End AnnualisationFacts.

(** ** More on the loan calculator *)

Module LoanExtra.

Import Loan LoanComponent LoanFacts.

Lemma pos_factor (a b : Q) : 0 < b -> 0 < a * b -> 0 < a.
Proof.
  intros Hb Hab. destruct (Qlt_le_dec 0 a) as [Ha|Ha]; [exact Ha|].
  exfalso. assert (H : a * b <= 0) by nra. lra.
Qed.

Lemma inject_nat_pos (m : nat) : 0 < inject_Z (Z.of_nat (S m)).
Proof. change 0 with (inject_Z 0). rewrite <- Zlt_Qlt. lia. Qed.

Lemma inject_nat_succ (m : nat) :
  inject_Z (Z.of_nat (S m)) == inject_Z (Z.of_nat m) + 1.
Proof. rewrite Nat2Z.inj_succ. unfold Z.succ. rewrite inject_Z_plus. reflexivity. Qed.

Lemma qpow_pos (q : Q) (m : nat) : 1 <= q -> 0 < qpow q m.
Proof. intro H. pose proof (qpow_ge_1 q m H). lra. Qed.

Lemma geom_nonneg (q : Q) (m : nat) : 1 <= q -> 0 <= geom q m.
Proof.
  intro H. apply Qle_trans with (inject_Z (Z.of_nat m)); [|apply geom_ge; exact H].
  change 0 with (inject_Z 0). rewrite <- Zle_Qle. lia.
Qed.

Lemma geom_pos (q : Q) (m : nat) : 1 <= q -> 0 < geom q (S m).
Proof.
  intro H. apply Qlt_le_trans with (inject_Z (Z.of_nat (S m)));
    [apply inject_nat_pos | apply geom_ge; exact H].
Qed.

Section Engine.

Variable Math_pow_frac : Q -> Q -> Q.

(** The data of a valid loan with a whole number of periods. *)
Lemma whole_loan (i : LoanInputs) :
  valid i -> whole_periods i ->
  exists (res : CalculationResults) (m : nat),
    calculateLoanRepayments Math_pow_frac i = Some res
    /\ totalPeriods res = totalPeriodsOf i
    /\ periodsPerYear res = periodsPerYearOf (repaymentFrequency i)
    /\ totalPeriodsOf i == inject_Z (Z.of_nat (S m))
    /\ Z.to_nat (Qfloor (totalPeriodsOf i)) = S m
    /\ principalToAmortizeOf i * qpow (1 + periodicRateOf i) (S m)
       == repaymentPerPeriod res * geom (1 + periodicRateOf i) (S m)
    /\ 0 < repaymentPerPeriod res.
Proof.
  intros Hv Hw.
  destruct (calculateLoanRepayments_valid Math_pow_frac i Hv)
    as (res & Hres & Htp & Hppy & _).
  destruct (whole_periods_count i Hv Hw) as (m & Hm & Hfuel).
  pose proof (repayment_closes Math_pow_frac i res m Hv Hres Hm) as Hinv.
  exists res, m. repeat split; try assumption.
  pose proof (periodicRateOf_nonneg i Hv) as Hr.
  pose proof (principalToAmortizeOf_pos i Hv) as HP.
  assert (HX : 0 < qpow (1 + periodicRateOf i) (S m)) by (apply qpow_pos; lra).
  assert (HG : 0 < geom (1 + periodicRateOf i) (S m)) by (apply geom_pos; lra).
  apply (pos_factor _ (geom (1 + periodicRateOf i) (S m))); [exact HG|].
  rewrite <- Hinv. apply Qmult_lt_0_compat; assumption.
Qed.

(** In exact arithmetic the payment of a valid loan with a whole number
    of periods covers the interest of the first period. *)
Lemma payment_covers_first_interest (i : LoanInputs) :
  valid i -> whole_periods i ->
  exists res, calculateLoanRepayments Math_pow_frac i = Some res
    /\ 0 <= interestRate i / 100 / periodsPerYear res
    /\ 0 <= repaymentPerPeriod res
            - (loanAmount i - actualResidualOf i)
              * (interestRate i / 100 / periodsPerYear res).
Proof.
  intros Hv Hw.
  destruct (whole_loan i Hv Hw) as (res & m & Hres & _ & Hppy & _ & _ & Hinv & Hpmt).
  exists res. split; [exact Hres|]. rewrite Hppy.
  fold (periodicRateOf i) (principalToAmortizeOf i).
  pose proof (periodicRateOf_nonneg i Hv) as Hr. split; [exact Hr|].
  pose proof (geom_closed (periodicRateOf i) (S m)) as HG.
  set (X := qpow (1 + periodicRateOf i) (S m)) in *.
  set (G := geom (1 + periodicRateOf i) (S m)) in *.
  assert (HX : 0 < X) by (apply qpow_pos; lra).
  apply Qlt_le_weak, (pos_factor _ X); [exact HX|].
  assert (E : (repaymentPerPeriod res - principalToAmortizeOf i * periodicRateOf i) * X
              == repaymentPerPeriod res).
  { transitivity (repaymentPerPeriod res * X
                  - periodicRateOf i * (principalToAmortizeOf i * X)); [ring|].
    rewrite Hinv.
    transitivity (repaymentPerPeriod res * (X - periodicRateOf i * G)); [ring|].
    rewrite HG. ring. }
  rewrite E. exact Hpmt.
Qed.

End Engine.

(** *** The shape of the schedule *)

Section LoopShape.

Variables pmt r tp : Q.

Lemma cond_below_floor (k : Z) : (k <= Qfloor tp)%Z -> Qle_bool (inject_Z k) tp = true.
Proof.
  intro H. apply Qle_bool_iff.
  apply Qle_trans with (inject_Z (Qfloor tp)); [|apply Qfloor_le].
  rewrite <- Zle_Qle. exact H.
Qed.

Lemma loop_length (fuel : nat) : forall (k : Z) (bal : Q),
  (k + Z.of_nat fuel = Qfloor tp + 1)%Z ->
  List.length (schedule_loop fuel pmt r tp k bal) = fuel.
Proof.
  induction fuel as [|fuel IH]; intros k bal H; [reflexivity|].
  rewrite schedule_loop_S, cond_below_floor by lia.
  destruct (Qeq_bool (inject_Z k) tp); cbn [List.length]; rewrite IH by lia; reflexivity.
Qed.

Lemma loop_numbers (fuel : nat) : forall (k : Z) (bal : Q) (j : nat) (e : AmortizationEntry),
  nth_error (schedule_loop fuel pmt r tp k bal) j = Some e ->
  paymentNumber e = inject_Z (k + Z.of_nat j).
Proof.
  induction fuel as [|fuel IH]; intros k bal j e H.
  - destruct j; discriminate H.
  - rewrite schedule_loop_S in H.
    destruct (Qle_bool (inject_Z k) tp); [|destruct j; discriminate H].
    destruct (Qeq_bool (inject_Z k) tp); destruct j as [|j]; cbn [nth_error] in H.
    + injection H as <-. cbn. f_equal. lia.
    + rewrite (IH _ _ _ _ H). f_equal. lia.
    + injection H as <-. cbn. f_equal. lia.
    + rewrite (IH _ _ _ _ H). f_equal. lia.
Qed.

End LoopShape.

(** X4.  Whatever the input and the result passed in, the schedule has
    [floor totalPeriods] regular entries (none when [totalPeriods < 1]),
    followed by one residual entry when the flag is on and the residual
    payment is above 0; without a result the schedule is empty. *)
Theorem schedule_length : forall (i : LoanInputs) (res : CalculationResults),
  List.length (regularEntries i res) = Z.to_nat (Qfloor (totalPeriods res))
  /\ List.length (generateAmortizationSchedule i (Some res))
     = (Z.to_nat (Qfloor (totalPeriods res))
        + if hasResidualPayment i && Qlt_bool 0 (residualPayment i) then 1 else 0)%nat
  /\ generateAmortizationSchedule i None = [].
Proof.
  intros i res.
  assert (H : List.length (regularEntries i res) = Z.to_nat (Qfloor (totalPeriods res))).
  { unfold regularEntries.
    destruct (Z.le_gt_cases 0 (Qfloor (totalPeriods res))) as [Hf|Hf].
    - apply loop_length. lia.
    - replace (Z.to_nat (Qfloor (totalPeriods res))) with 0%nat by lia. reflexivity. }
  split; [exact H|]. split; [|reflexivity].
  cbn [generateAmortizationSchedule]. rewrite length_app, H. f_equal.
  unfold residualEntry. destruct (_ && _); reflexivity.
Qed.

(** X5.  The regular entries are numbered 1, 2, 3, ...: the entry at
    position [k] (from 0) has [paymentNumber = k + 1]. *)
Theorem regular_entries_numbered :
  forall (i : LoanInputs) (res : CalculationResults) (k : nat) (e : AmortizationEntry),
  nth_error (regularEntries i res) k = Some e ->
  paymentNumber e = inject_Z (Z.of_nat (S k)).
Proof.
  intros i res k e H. unfold regularEntries in H.
  rewrite (loop_numbers _ _ _ _ _ _ _ _ H). f_equal. lia.
Qed.

(** *** The balances of the schedule *)

Section LoopBalances.

Variables pmt r tp : Q.
Variable n : Z.
Hypothesis tp_whole : tp == inject_Z n.
Hypothesis r_nonneg : 0 <= r.
Hypothesis pmt_nonneg : 0 <= pmt.

Variable tl : list AmortizationEntry.
Hypothesis tl_sorted : Sorted balance_nonincreasing tl.
Hypothesis tl_low :
  forall a, 0 <= remainingBalance a -> HdRel balance_nonincreasing a tl.

Lemma Math_max_0_lower (a : Q) : 0 <= Math_max 0 a /\ a <= Math_max 0 a.
Proof. destruct (Math_max_spec 0 a) as [(H & ->) | (H & ->)]; split; lra. Qed.

(** While the balance is the one the payment pays off in the periods
    left, it is not negative and the principal part is not negative. *)
Lemma closing_balance (m : nat) (bal : Q) :
  bal * qpow (1 + r) (S m) == pmt * geom (1 + r) (S m) ->
  0 <= bal /\ 0 <= pmt - bal * r.
Proof.
  intro Hinv.
  set (X := qpow (1 + r) (S m)) in *. set (G := geom (1 + r) (S m)) in *.
  assert (HX : 0 < X) by (apply qpow_pos; lra).
  assert (HG : 0 <= G) by (apply geom_nonneg; lra).
  pose proof (geom_closed r (S m)) as Hc. fold X G in Hc.
  split.
  - apply (nonneg_factor _ X); [exact HX|]. rewrite Hinv.
    apply Qmult_le_0_compat; assumption.
  - apply (nonneg_factor _ X); [exact HX|].
    assert (E : (pmt - bal * r) * X == pmt) .
    { transitivity (pmt * X - r * (bal * X)); [ring|].
      rewrite Hinv.
      transitivity (pmt * (X - r * G)); [ring|].
      rewrite Hc. ring. }
    rewrite E. exact pmt_nonneg.
Qed.

Lemma closing_next (m : nat) (bal : Q) :
  bal * qpow (1 + r) (S (S m)) == pmt * geom (1 + r) (S (S m)) ->
  (bal - (pmt - bal * r)) * qpow (1 + r) (S m) == pmt * geom (1 + r) (S m).
Proof.
  intro Hinv.
  change (geom (1 + r) (S (S m)))
    with (qpow (1 + r) (S m) + geom (1 + r) (S m)) in Hinv.
  change (qpow (1 + r) (S (S m))) with ((1 + r) * qpow (1 + r) (S m)) in Hinv.
  set (X := qpow (1 + r) (S m)) in *. set (G := geom (1 + r) (S m)) in *.
  transitivity (bal * ((1 + r) * X) - pmt * X); [ring|].
  rewrite Hinv. ring.
Qed.

Lemma loop_balances (m : nat) : forall (k : Z) (bal : Q),
  (k + Z.of_nat m = n)%Z ->
  bal * qpow (1 + r) (S m) == pmt * geom (1 + r) (S m) ->
  Sorted balance_nonincreasing (schedule_loop (S m) pmt r tp k bal ++ tl)
  /\ (forall e l, schedule_loop (S m) pmt r tp k bal = e :: l ->
        remainingBalance e <= bal).
Proof.
  induction m as [|m IH]; intros k bal Hk Hinv;
    destruct (closing_balance _ bal Hinv) as (Hbal & Hprin).
  - replace k with n by lia. rewrite (loop_step_last pmt r tp n tp_whole).
    split.
    + cbn [app]. constructor; [exact tl_sorted|]. apply tl_low. cbn. apply Qle_refl.
    + intros e l H. injection H as <- _. cbn. exact Hbal.
  - rewrite (loop_step_regular pmt r tp n tp_whole) by lia.
    destruct (IH (k + 1)%Z _ ltac:(lia) (closing_next m bal Hinv)) as (IHs & IHh).
    destruct (Math_max_0_lower (bal - (pmt - bal * r))) as (Hm0 & Hm1).
    split.
    + cbn [app]. constructor; [exact IHs|].
      destruct (schedule_loop (S m) pmt r tp (k + 1) _) as [|e' l'] eqn:E.
      * cbn [app]. apply tl_low. cbn. exact Hm0.
      * cbn [app]. constructor. unfold balance_nonincreasing. cbn.
        apply Qle_trans with (bal - (pmt - bal * r)); [|exact Hm1].
        apply (IHh e' l' eq_refl).
    + intros e l H. injection H as <- _. cbn.
      destruct (Math_max_spec 0 (bal - (pmt - bal * r))) as [(_ & ->) | (_ & ->)]; lra.
Qed.

End LoopBalances.


(** *** The component *)

Lemma formValid_guard (i : LoanInputs) (t : TouchedFields) :
  formValid i t = true ->
  Qle_bool (loanAmount i) 0 || Qlt_bool (interestRate i) 0 || Qle_bool (loanTerm i) 0
  = false.
Proof.
  unfold formValid. rewrite !andb_true_iff.
  intros (((_ & Ha) & Hr) & Ht).
  apply Qlt_bool_iff in Ha. apply Qle_bool_iff in Hr. apply Qlt_bool_iff in Ht.
  rewrite !orb_false_iff. repeat split.
  - apply Qle_bool_false_iff. exact Ha.
  - apply Qlt_bool_false_iff. exact Hr.
  - apply Qle_bool_false_iff. exact Ht.
Qed.

(** X8.  The result of the component is the result of the extracted
    engine behind the validity of the form, and its schedule is the
    engine's schedule of that result. *)
Theorem component_is_gated_engine :
  forall (Math_pow_frac : Q -> Q -> Q) (i : LoanInputs) (t : TouchedFields),
  calculateRepayments Math_pow_frac (formValid i t) i
  = (if formValid i t then calculateLoanRepayments Math_pow_frac i else None)
  /\ amortizationSchedule (calculateRepayments Math_pow_frac (formValid i t) i)
       (formValid i t) i
     = generateAmortizationSchedule i
         (calculateRepayments Math_pow_frac (formValid i t) i).
Proof.
  intros pf i t. destruct (formValid i t) eqn:E.
  - split.
    + unfold calculateRepayments, calculateLoanRepayments.
      rewrite (formValid_guard i t E). reflexivity.
    + unfold amortizationSchedule, generateAmortizationSchedule.
      destruct (calculateRepayments pf true i); reflexivity.
  - split; reflexivity.
Qed.

Lemma formValid_touched_tests (i : LoanInputs) :
  formValid i all_touched
  = negb (Qle_bool (loanAmount i) 0)
    && negb (Qlt_bool (interestRate i) 0 || Qlt_bool 100 (interestRate i))
    && negb (Qle_bool (loanTerm i) 0 || Qlt_bool 7 (loanTerm i))
    && negb (hasResidualPayment i
             && (Qlt_bool (residualPayment i) 0
                 || Qle_bool (loanAmount i) (residualPayment i)))
    && (Qlt_bool 0 (loanAmount i) && Qle_bool 0 (interestRate i)
        && Qlt_bool 0 (loanTerm i)).
Proof.
  unfold formValid, validateInputs, no_errors, all_touched.
  cbn [touched_loanAmount touched_interestRate touched_loanTerm touched_residualPayment
       err_loanAmount err_interestRate err_loanTerm err_residualPayment andb].
  destruct (Qle_bool (loanAmount i) 0), (Qlt_bool (interestRate i) 0),
    (Qlt_bool 100 (interestRate i)), (Qle_bool (loanTerm i) 0),
    (Qlt_bool 7 (loanTerm i)), (hasResidualPayment i),
    (Qlt_bool (residualPayment i) 0), (Qle_bool (loanAmount i) (residualPayment i));
    cbn [orb andb negb];
    destruct (Qlt_bool 0 (loanAmount i)), (Qle_bool 0 (interestRate i)),
      (Qlt_bool 0 (loanTerm i)); reflexivity.
Qed.

(** X9.  Once every field is touched, the form of the loan calculator is
    valid exactly when the amount is positive, the rate lies in [0, 100],
    the term lies in (0, 7] and, with the residual flag on, the residual
    payment lies in [0, amount). *)
Theorem formValid_all_touched : forall i : LoanInputs,
  formValid i all_touched = true
  <-> (0 < loanAmount i
       /\ (0 <= interestRate i /\ interestRate i <= 100)
       /\ (0 < loanTerm i /\ loanTerm i <= 7)
       /\ (hasResidualPayment i = true ->
           0 <= residualPayment i /\ residualPayment i < loanAmount i)).
Proof.
  intro i. rewrite formValid_touched_tests.
  rewrite !andb_true_iff, !negb_true_iff, !orb_false_iff, andb_false_iff, orb_false_iff.
  rewrite !Qle_bool_false_iff, !Qlt_bool_false_iff, !Qlt_bool_iff, Qle_bool_iff.
  split.
  - intros ((((Ha & Hr1 & Hr2) & Ht1 & Ht2) & Hx) & _).
    repeat split; try assumption.
    + destruct Hx as [Hx | Hx]; [congruence | apply Hx].
    + destruct Hx as [Hx | Hx]; [congruence | apply Hx].
  - intros (Ha & (Hr1 & Hr2) & (Ht1 & Ht2) & Hx).
    repeat split; try assumption.
    destruct (hasResidualPayment i); [right; apply Hx; reflexivity | left; reflexivity].
Qed.

(** *** The statements at concrete loans *)

Lemma regular_entries_numbered_witness :
  exists res e,
    calculateLoanRepayments pow_ceiling loan_one_year = Some res
    /\ nth_error (regularEntries loan_one_year res) 0 = Some e
    /\ paymentNumber e = inject_Z (Z.of_nat 1).
Proof.
  eexists. eexists. split; [reflexivity|].
  match goal with |- ?A /\ _ => assert (H : A) by reflexivity end.
  split; [exact H|]. exact (regular_entries_numbered _ _ _ _ H).
Defined.


End LoanExtra.

(** ** The mortgage calculator *)

Module MortgageFacts.

Import Loan LoanFacts.

Lemma mortgage_formValid_parts (m : Mortgage.MortgageInputs) (t : TouchedFields) :
  Mortgage.formValid m t = true ->
  (0 < Mortgage.m_loanAmount m /\ 0 <= Mortgage.m_interestRate m
   /\ 0 < Mortgage.m_loanTerm m)
  /\ no_errors (Mortgage.validateInputs m t) = true
  /\ (touched_loanAmount t = true /\ touched_interestRate t = true
      /\ touched_loanTerm t = true).
Proof.
  unfold Mortgage.formValid. cbv zeta. rewrite !andb_true_iff.
  rewrite !Qlt_bool_iff, Qle_bool_iff. tauto.
Qed.

(** X11.  The mortgage calculator computes what the loan engine computes
    on the same figures paid monthly: its result is the engine's result
    behind the validity of the form, and its schedule is the engine's
    schedule of that result. *)
Theorem mortgage_is_monthly_loan :
  forall (Math_pow_frac : Q -> Q -> Q) (m : Mortgage.MortgageInputs) (t : TouchedFields),
  Mortgage.calculateRepayments Math_pow_frac (Mortgage.formValid m t) m
  = (if Mortgage.formValid m t
     then calculateLoanRepayments Math_pow_frac (Mortgage.as_loan m) else None)
  /\ Mortgage.amortizationSchedule
       (Mortgage.calculateRepayments Math_pow_frac (Mortgage.formValid m t) m)
       (Mortgage.formValid m t) m
     = generateAmortizationSchedule (Mortgage.as_loan m)
         (Mortgage.calculateRepayments Math_pow_frac (Mortgage.formValid m t) m).
Proof.
  intros pf m t. destruct (Mortgage.formValid m t) eqn:E.
  - split.
    + destruct (mortgage_formValid_parts m t E) as ((Ha & Hr & Ht) & _).
      unfold Mortgage.calculateRepayments, calculateLoanRepayments.
      cbn [Mortgage.as_loan loanAmount interestRate loanTerm negb].
      rewrite (proj2 (Qle_bool_false_iff _ _) Ha), (proj2 (Qlt_bool_false_iff _ _) Hr),
        (proj2 (Qle_bool_false_iff _ _) Ht).
      reflexivity.
    + unfold Mortgage.amortizationSchedule, generateAmortizationSchedule.
      destruct (Mortgage.calculateRepayments pf true m); reflexivity.
  - split; reflexivity.
Qed.

Lemma mortgage_touched_tests (m : Mortgage.MortgageInputs) (tx : bool) :
  Mortgage.formValid m
    {| touched_loanAmount := true; touched_interestRate := true;
       touched_loanTerm := true; touched_residualPayment := tx |}
  = negb (Qle_bool (Mortgage.m_loanAmount m) 0)
    && negb (Qlt_bool (Mortgage.m_interestRate m) 0
             || Qlt_bool 100 (Mortgage.m_interestRate m))
    && negb (Qle_bool (Mortgage.m_loanTerm m) 0 || Qlt_bool 30 (Mortgage.m_loanTerm m))
    && negb (Mortgage.m_hasResidualPayment m && tx
             && (Qlt_bool (Mortgage.m_residualPayment m) 0
                 || Qle_bool (Mortgage.m_loanAmount m) (Mortgage.m_residualPayment m)))
    && (Qlt_bool 0 (Mortgage.m_loanAmount m) && Qle_bool 0 (Mortgage.m_interestRate m)
        && Qlt_bool 0 (Mortgage.m_loanTerm m)).
Proof.
  unfold Mortgage.formValid, Mortgage.validateInputs, no_errors.
  cbn [touched_loanAmount touched_interestRate touched_loanTerm touched_residualPayment
       err_loanAmount err_interestRate err_loanTerm err_residualPayment andb].
  destruct (Qle_bool (Mortgage.m_loanAmount m) 0),
    (Qlt_bool (Mortgage.m_interestRate m) 0),
    (Qlt_bool 100 (Mortgage.m_interestRate m)),
    (Qle_bool (Mortgage.m_loanTerm m) 0),
    (Qlt_bool 30 (Mortgage.m_loanTerm m)),
    (Mortgage.m_hasResidualPayment m), tx,
    (Qlt_bool (Mortgage.m_residualPayment m) 0),
    (Qle_bool (Mortgage.m_loanAmount m) (Mortgage.m_residualPayment m));
    cbn [orb andb negb];
    destruct (Qlt_bool 0 (Mortgage.m_loanAmount m)),
      (Qle_bool 0 (Mortgage.m_interestRate m)),
      (Qlt_bool 0 (Mortgage.m_loanTerm m)); reflexivity.
Qed.

(** X12.  The form of the mortgage calculator is valid exactly when the
    amount, the rate and the term have all been touched, the amount is
    positive, the rate lies in [0, 100], the term lies in (0, 30] and,
    with the residual flag on and the residual field touched, the residual
    payment lies in [0, amount): an untouched form gives no result. *)
Theorem mortgage_formValid_iff :
  forall (m : Mortgage.MortgageInputs) (t : TouchedFields),
  Mortgage.formValid m t = true
  <-> ((touched_loanAmount t = true /\ touched_interestRate t = true
        /\ touched_loanTerm t = true)
       /\ 0 < Mortgage.m_loanAmount m
       /\ (0 <= Mortgage.m_interestRate m /\ Mortgage.m_interestRate m <= 100)
       /\ (0 < Mortgage.m_loanTerm m /\ Mortgage.m_loanTerm m <= 30)
       /\ (Mortgage.m_hasResidualPayment m = true -> touched_residualPayment t = true ->
           0 <= Mortgage.m_residualPayment m
           /\ Mortgage.m_residualPayment m < Mortgage.m_loanAmount m)).
Proof.
  intros m t. split.
  - intro H. destruct (mortgage_formValid_parts m t H) as (_ & _ & Ha & Hr & Ht).
    split; [tauto|].
    destruct t as [ta tr tt tx]. cbn in Ha, Hr, Ht. subst ta tr tt.
    rewrite mortgage_touched_tests in H. revert H.
    rewrite !andb_true_iff, !negb_true_iff, !orb_false_iff, !andb_false_iff, orb_false_iff.
    rewrite !Qle_bool_false_iff, !Qlt_bool_false_iff, !Qlt_bool_iff, Qle_bool_iff.
    cbn [touched_residualPayment].
    intros ((((Ha & Hr1 & Hr2) & Ht1 & Ht2) & Hx) & _).
    repeat split; try assumption.
    + destruct Hx as [[Hx | Hx] | Hx]; [congruence | congruence | apply Hx].
    + destruct Hx as [[Hx | Hx] | Hx]; [congruence | congruence | apply Hx].
  - intros ((Ha & Hr & Ht) & Hpos & (Hr1 & Hr2) & (Ht1 & Ht2) & Hx).
    destruct t as [ta tr tt tx]. cbn in Ha, Hr, Ht, Hx. subst ta tr tt.
    rewrite mortgage_touched_tests.
    rewrite !andb_true_iff, !negb_true_iff, !orb_false_iff, !andb_false_iff, orb_false_iff.
    rewrite !Qle_bool_false_iff, !Qlt_bool_false_iff, !Qlt_bool_iff, Qle_bool_iff.
    repeat split; try assumption.
    destruct (Mortgage.m_hasResidualPayment m); [|left; left; reflexivity].
    destruct tx; [|left; right; reflexivity].
    right. apply Hx; reflexivity.
Qed.

Lemma whole_term_periods (term : Q) :
  is_whole term = true -> 0 < term ->
  exists m : nat,
    term * 12 == inject_Z (Z.of_nat (S m))
    /\ Z.to_nat (Qfloor (term * 12)) = S m
    /\ Z.of_nat (S m) = (12 * Qfloor term)%Z.
Proof.
  intros Hw Hpos. unfold is_whole in Hw. apply Qeq_bool_iff in Hw.
  assert (Hn : (0 < Qfloor term)%Z).
  { rewrite Zlt_Qlt. rewrite <- Hw. exact Hpos. }
  assert (E : term * 12 == inject_Z (12 * Qfloor term)).
  { rewrite inject_Z_mult, <- Hw. change (inject_Z 12) with 12. ring. }
  exists (Z.to_nat (12 * Qfloor term - 1)).
  assert (E2 : Z.of_nat (S (Z.to_nat (12 * Qfloor term - 1))) = (12 * Qfloor term)%Z) by lia.
  split; [rewrite E2; exact E|]. split; [|exact E2].
  rewrite (Qfloor_comp _ _ E), Qfloor_Z. lia.
Qed.

(** X13.  With a valid form and a term of a whole number of years, the
    schedule of the mortgage consists of [12 * term] regular entries, the
    last of which has index [totalPeriods] and remaining balance 0,
    followed by at most one residual entry. *)
Theorem mortgage_schedule_closes :
  forall (Math_pow_frac : Q -> Q -> Q) (m : Mortgage.MortgageInputs) (t : TouchedFields),
  Mortgage.formValid m t = true ->
  is_whole (Mortgage.m_loanTerm m) = true ->
  exists res regular rest e,
    Mortgage.calculateRepayments Math_pow_frac (Mortgage.formValid m t) m = Some res
    /\ Mortgage.amortizationSchedule (Some res) (Mortgage.formValid m t) m
       = regular ++ rest
    /\ List.length regular = Z.to_nat (12 * Qfloor (Mortgage.m_loanTerm m))
    /\ (List.length rest <= 1)%nat
    /\ last_entry regular = Some e
    /\ paymentNumber e == totalPeriods res
    /\ remainingBalance e = 0.
Proof.
  intros pf m t Hf Hw.
  destruct (mortgage_formValid_parts m t Hf) as ((_ & _ & Ht) & _).
  destruct (whole_term_periods _ Hw Ht) as (k & Hk & Hfuel & Hlen).
  rewrite Hf.
  assert (Hres : exists res,
             Mortgage.calculateRepayments pf true m = Some res
             /\ totalPeriods res = Mortgage.m_loanTerm m * 12).
  { unfold Mortgage.calculateRepayments. cbn [negb]. cbv zeta.
    destruct (Qeq_bool _ 0); eexists; split; reflexivity. }
  destruct Hres as (res & Hres & Htp).
  destruct (loop_last_whole (repaymentPerPeriod res)
              (Mortgage.m_interestRate m / 100 / periodsPerYear res)
              (Mortgage.m_loanTerm m * 12) _ Hk k 1
              (Mortgage.m_loanAmount m
               - (if Mortgage.m_hasResidualPayment m
                  then Mortgage.m_residualPayment m else 0)))
    as (Hlength & e & He & Hnum & Hb); [lia|].
  exists res. eexists. eexists. exists e.
  split; [exact Hres|].
  unfold Mortgage.amortizationSchedule. cbn [negb]. cbv zeta.
  rewrite Htp, Hfuel.
  split; [reflexivity|].
  split; [rewrite Hlength; lia|].
  split; [destruct (_ && _); cbn; lia|].
  split; [exact He|]. split; [exact Hnum | exact Hb].
Qed.

Lemma mortgage_schedule_closes_witness :
  Mortgage.formValid Mortgage.mortgage_sample LoanComponent.all_touched = true
  /\ is_whole (Mortgage.m_loanTerm Mortgage.mortgage_sample) = true
  /\ exists res regular rest e,
       Mortgage.calculateRepayments pow_ceiling
         (Mortgage.formValid Mortgage.mortgage_sample LoanComponent.all_touched)
         Mortgage.mortgage_sample = Some res
       /\ Mortgage.amortizationSchedule (Some res)
            (Mortgage.formValid Mortgage.mortgage_sample LoanComponent.all_touched)
            Mortgage.mortgage_sample
          = regular ++ rest
       /\ List.length regular
          = Z.to_nat (12 * Qfloor (Mortgage.m_loanTerm Mortgage.mortgage_sample))
       /\ (List.length rest <= 1)%nat
       /\ last_entry regular = Some e
       /\ paymentNumber e == totalPeriods res
       /\ remainingBalance e = 0.
Proof.
  split; [reflexivity|]. split; [reflexivity|].
  apply (mortgage_schedule_closes pow_ceiling Mortgage.mortgage_sample
           LoanComponent.all_touched); reflexivity.
Defined.

End MortgageFacts.

(** ** More on the income tax *)

Module TaxExtra.

Import Tax TaxFacts TaxRows.

(** Settle every comparison the hypotheses decide. *)
Ltac decide_tests :=
  repeat match goal with
         | |- context [Qlt_bool ?a ?b] =>
           first [ rewrite (proj2 (Qlt_bool_iff a b)) by lra
                 | rewrite (proj2 (Qlt_bool_false_iff a b)) by lra ]
         | |- context [Qle_bool ?a ?b] =>
           first [ rewrite (proj2 (Qle_bool_iff a b)) by lra
                 | rewrite (proj2 (Qle_bool_false_iff a b)) by lra ]
         end.

Lemma bracketTax_piecewise (x : Q) :
  (x <= 18200 -> computeBracketTax x == 0)
  /\ (18200 < x -> x <= 45000 -> computeBracketTax x == 0.16 * (x - 18200))
  /\ (45000 < x -> x <= 135000 -> computeBracketTax x == 4288 + 0.30 * (x - 45000))
  /\ (135000 < x -> x <= 190000 -> computeBracketTax x == 31288 + 0.37 * (x - 135000))
  /\ (190000 < x -> computeBracketTax x == 51638 + 0.45 * (x - 190000)).
Proof.
  unfold computeBracketTax, taxBrackets. cbn [bracketTaxFrom max rate].
  unfold Math_min.
  repeat split; intros; decide_tests; try destruct (Qlt_bool 0 x); ring.
Qed.

(** The five ranges of the bracket thresholds. *)
Lemma bracket_ranges (x : Q) :
  x <= 18200 \/ (18200 < x /\ x <= 45000) \/ (45000 < x /\ x <= 135000)
  \/ (135000 < x /\ x <= 190000) \/ 190000 < x.
Proof.
  destruct (Qlt_le_dec 18200 x); [|tauto].
  destruct (Qlt_le_dec 45000 x); [|tauto].
  destruct (Qlt_le_dec 135000 x); [|tauto].
  destruct (Qlt_le_dec 190000 x); tauto.
Qed.

(** The bracket tax in closed form on the range of [x]: [H] is the range,
    [E] the equation. *)
Ltac bracket_range x H E :=
  let P := fresh "P" in
  let P1 := fresh "P" in let P2 := fresh "P" in let P3 := fresh "P" in
  let P4 := fresh "P" in let P5 := fresh "P" in
  pose proof (bracketTax_piecewise x) as P;
  destruct P as (P1 & P2 & P3 & P4 & P5);
  destruct (bracket_ranges x) as [H | [H | [H | [H | H]]]];
  [ pose proof (P1 H) as E
  | pose proof (P2 (proj1 H) (proj2 H)) as E
  | pose proof (P3 (proj1 H) (proj2 H)) as E
  | pose proof (P4 (proj1 H) (proj2 H)) as E
  | pose proof (P5 H) as E ];
  clear P1 P2 P3 P4 P5.

Lemma bracketTax_bounds (x : Q) :
  0 <= computeBracketTax x /\ (0 <= x -> computeBracketTax x <= 0.45 * x).
Proof.
  bracket_range x H E; rewrite E; split; intros; lra.
Qed.

Lemma bracketTax_monotone (x y : Q) :
  x <= y -> computeBracketTax x <= computeBracketTax y.
Proof.
  intro Hxy. bracket_range x Hx Ex; bracket_range y Hy Ey; rewrite Ex, Ey; lra.
Qed.

(** The four ranges of the offset thresholds. *)
Lemma offset_ranges (x : Q) :
  x <= 37500 \/ (37500 < x /\ x <= 45000) \/ (45000 < x /\ x <= 66667) \/ 66667 < x.
Proof.
  destruct (Qlt_le_dec 37500 x); [|tauto].
  destruct (Qlt_le_dec 45000 x); [|tauto].
  destruct (Qlt_le_dec 66667 x); tauto.
Qed.

Ltac offset_range x H E :=
  let P := fresh "P" in
  let P1 := fresh "P" in let P2 := fresh "P" in let P3 := fresh "P" in
  let P4 := fresh "P" in
  pose proof (calculateLITO_piecewise x) as P;
  destruct P as (P1 & P2 & P3 & P4);
  destruct (offset_ranges x) as [H | [H | [H | H]]];
  [ pose proof (P1 H) as E
  | pose proof (P2 (proj1 H) (proj2 H)) as E
  | pose proof (P3 (proj1 H) (proj2 H)) as E
  | pose proof (P4 H) as E ];
  clear P1 P2 P3 P4.

Lemma offset_bounds (x : Q) : 0 <= calculateLITO x /\ calculateLITO x <= 700.
Proof.
  split; [apply calculateLITO_nonneg|].
  offset_range x H E; rewrite E; try lra.
  destruct (Math_max_spec 0 (325 - (x - 45000) * 0.015)) as [(Hm & ->) | (Hm & ->)]; lra.
Qed.

Lemma offset_antitone (x y : Q) : x <= y -> calculateLITO y <= calculateLITO x.
Proof.
  intro Hxy. offset_range x Hx Ex; offset_range y Hy Ey; rewrite Ex, Ey; try lra;
    repeat match goal with
           | |- context [Math_max 0 ?a] =>
             let H := fresh "Hmax" in
             destruct (Math_max_spec 0 a) as [(H & ->) | (H & ->)]
           end; lra.
Qed.

Lemma Math_max_0_monotone (a b : Q) : a <= b -> Math_max 0 a <= Math_max 0 b.
Proof.
  intro H.
  destruct (Math_max_spec 0 a) as [(Ha & ->) | (Ha & ->)];
    destruct (Math_max_spec 0 b) as [(Hb & ->) | (Hb & ->)]; lra.
Qed.

(** X14.  The income tax never decreases when the taxable income
    increases. *)
Theorem income_tax_monotone : forall x y : Q,
  x <= y -> calculateIncomeTax x <= calculateIncomeTax y.
Proof.
  intros x y Hxy. rewrite !calculateIncomeTax_brackets.
  apply Math_max_0_monotone.
  pose proof (bracketTax_monotone x y Hxy). pose proof (offset_antitone x y Hxy). lra.
Qed.

(** X15.  The income tax is 0 exactly up to a taxable income of 22575,
    where the 16% bracket reaches the offset of 700. *)
Theorem income_tax_zero_iff : forall x : Q,
  calculateIncomeTax x == 0 <-> x <= 22575.
Proof.
  intro x. rewrite calculateIncomeTax_brackets.
  pose proof (offset_bounds x) as (HO0 & HO1).
  split.
  - intro H0. destruct (Qlt_le_dec 22575 x) as [Hgt|Hle]; [|exact Hle]. exfalso.
    assert (Hpos : 0 < computeBracketTax x - calculateLITO x).
    { bracket_range x Hx Ex; rewrite Ex; lra. }
    rewrite Math_max_0_of_nonneg in H0 by lra. lra.
  - intro Hle. apply Math_max_0_of_nonpos.
    destruct (calculateLITO_piecewise x) as (P1 & _).
    rewrite (P1 ltac:(lra)).
    bracket_range x Hx Ex; rewrite Ex; lra.
Qed.

(** X16.  In the range of a bracket of the table, [min <= x <= max], the
    income tax is the base tax of the bracket plus its rate on the income
    above the ceiling of the bracket before, less the offset and floored
    at 0: the [baseTax] column agrees with the progressive computation. *)
Theorem income_tax_from_base_tax : forall (b : TaxBracket) (x : Q),
  In b taxBrackets -> in_bracket x b = true ->
  calculateIncomeTax x
  == Math_max 0 (baseTax b + rate b * (x - (min b - 1)) - calculateLITO x).
Proof.
  intros b x Hin Hb. rewrite calculateIncomeTax_brackets. apply Math_max_0_comp.
  unfold in_bracket in Hb. apply andb_true_iff in Hb. destruct Hb as (Hmin & Hmax).
  apply Qle_bool_iff in Hmin.
  assert (E : computeBracketTax x == baseTax b + rate b * (x - (min b - 1))).
  { cbn in Hin.
    destruct Hin as [<- | [<- | [<- | [<- | [<- | []]]]]]; cbn in Hmin, Hmax |- *;
      try apply Qle_bool_iff in Hmax;
      bracket_range x Hx Ex; rewrite Ex; lra. }
  rewrite E. reflexivity.
Qed.

(** X17.  The Medicare levy is never negative, never exceeds 2% of a
    non-negative taxable income, and never decreases when the income
    increases. *)
Theorem medicare_levy_bounds : forall x y : Q,
  0 <= calculateMedicareLevy x
  /\ (0 <= x -> calculateMedicareLevy x <= 0.02 * x)
  /\ (x <= y -> calculateMedicareLevy x <= calculateMedicareLevy y).
Proof.
  intros x y. unfold calculateMedicareLevy. cbv zeta.
  destruct (Qle_bool x 27222) eqn:X1; destruct (Qle_bool x 34027) eqn:X2;
  destruct (Qle_bool y 27222) eqn:Y1; destruct (Qle_bool y 34027) eqn:Y2;
  repeat match goal with
         | H : Qle_bool _ _ = true |- _ => apply Qle_bool_iff in H
         | H : Qle_bool _ _ = false |- _ => apply Qle_bool_false_iff in H
         end;
  repeat match goal with
         | |- context [Math_min ?a ?b] =>
           let H := fresh "Hmin" in
           destruct (Math_min_spec a b) as [(H & ->) | (H & ->)]
         end;
  repeat split; intros; lra.
Qed.

Lemma surcharge_piecewise (x : Q) :
  (x <= 97000 -> calculateMedicareLevySurcharge x == 0)
  /\ (97001 <= x -> x <= 113000 -> calculateMedicareLevySurcharge x == x * 0.01)
  /\ (113001 <= x -> x <= 151000 -> calculateMedicareLevySurcharge x == x * 0.0125)
  /\ (151001 <= x -> calculateMedicareLevySurcharge x == x * 0.015)
  /\ ((97000 < x /\ x < 97001) \/ (113000 < x /\ x < 113001)
      \/ (151000 < x /\ x < 151001) ->
      calculateMedicareLevySurcharge x == 0).
Proof.
  unfold calculateMedicareLevySurcharge, medicareSurchargeThresholds.
  cbn [first_matching]. unfold in_bracket. cbn [min max rate].
  repeat split.
  - intro H. decide_tests. destruct (Qle_bool 0 x); cbn [andb]; ring.
  - intros. decide_tests. cbn [andb]. ring.
  - intros. decide_tests. cbn [andb]. ring.
  - intros. decide_tests. cbn [andb]. ring.
  - intros [H | [H | H]]; decide_tests; cbn [andb]; ring.
Qed.

Lemma surcharge_bounds (x : Q) :
  0 <= x -> 0 <= calculateMedicareLevySurcharge x
            /\ calculateMedicareLevySurcharge x <= 0.015 * x.
Proof.
  intro Hx. destruct (surcharge_piecewise x) as (P1 & P2 & P3 & P4 & P5).
  destruct (Qlt_le_dec 97000 x) as [H1|H1]; [|rewrite (P1 H1); lra].
  destruct (Qlt_le_dec x 97001) as [H2|H2]; [rewrite P5 by tauto; lra|].
  destruct (Qlt_le_dec 113000 x) as [H3|H3]; [|rewrite (P2 H2 H3); lra].
  destruct (Qlt_le_dec x 113001) as [H4|H4]; [rewrite P5 by tauto; lra|].
  destruct (Qlt_le_dec 151000 x) as [H5|H5]; [|rewrite (P3 H4 H5); lra].
  destruct (Qlt_le_dec x 151001) as [H6|H6]; [rewrite P5 by tauto; lra|].
  rewrite (P4 H6). lra.
Qed.

(** X18.  The Medicare levy surcharge is flat on the full income by tier:
    0 up to 97000, 1% from 97001 to 113000, 1.25% from 113001 to 151000
    and 1.5% from 151001; an income strictly between the [max] of a tier
    and the [min] of the next matches no tier and is charged 0.  On a
    non-negative income it lies between 0 and 1.5% of the income. *)
Theorem surcharge_by_tier : forall x : Q,
  (x <= 97000 -> calculateMedicareLevySurcharge x == 0)
  /\ (97001 <= x -> x <= 113000 -> calculateMedicareLevySurcharge x == x * 0.01)
  /\ (113001 <= x -> x <= 151000 -> calculateMedicareLevySurcharge x == x * 0.0125)
  /\ (151001 <= x -> calculateMedicareLevySurcharge x == x * 0.015)
  /\ ((97000 < x /\ x < 97001) \/ (113000 < x /\ x < 113001)
      \/ (151000 < x /\ x < 151001) ->
      calculateMedicareLevySurcharge x == 0)
  /\ (0 <= x -> 0 <= calculateMedicareLevySurcharge x
               /\ calculateMedicareLevySurcharge x <= 0.015 * x).
Proof.
  intro x. destruct (surcharge_piecewise x) as (P1 & P2 & P3 & P4 & P5).
  split; [exact P1|]. split; [exact P2|]. split; [exact P3|]. split; [exact P4|].
  split; [exact P5|]. exact (surcharge_bounds x).
Qed.

Lemma levy_bounds (x : Q) :
  0 <= x -> 0 <= calculateMedicareLevy x /\ calculateMedicareLevy x <= 0.02 * x.
Proof.
  intro Hx. unfold calculateMedicareLevy. cbv zeta.
  destruct (Qle_bool x 27222) eqn:X1; destruct (Qle_bool x 34027) eqn:X2;
  repeat match goal with
         | H : Qle_bool _ _ = true |- _ => apply Qle_bool_iff in H
         | H : Qle_bool _ _ = false |- _ => apply Qle_bool_false_iff in H
         end;
  repeat match goal with
         | |- context [Math_min ?a ?b] =>
           let H := fresh "Hmin" in
           destruct (Math_min_spec a b) as [(H & ->) | (H & ->)]
         end;
  split; lra.
Qed.

Lemma getAnnualIncome_pos (i : TaxInputs) :
  0 < income i -> 0 < getAnnualIncome (income i) (incomeFrequency i).
Proof. intro H. unfold getAnnualIncome. destruct (incomeFrequency i); lra. Qed.

(** X19.  On a valid input the total tax lies between 0 and 48.5% of the
    gross income, so the net income is positive and at most the gross
    income, and the effective rate lies between 0 and 48.5 percent. *)
Theorem net_income_bounds : forall (i : TaxInputs) (touched_income : bool),
  valid i ->
  exists res, calculateTax (formValid i touched_income) i = Some res
    /\ totalTax res == incomeTax res + medicareLevy res + medicareLevySurcharge res
    /\ netIncome res == grossIncome res - totalTax res
    /\ 0 <= totalTax res /\ totalTax res <= 0.485 * grossIncome res
    /\ 0 < netIncome res /\ netIncome res <= grossIncome res
    /\ 0 <= effectiveTaxRate res /\ effectiveTaxRate res <= 48.5.
Proof.
  intros i t Hv. rewrite (tax_formValid_of_valid i t Hv).
  destruct Hv as (Hpos & _). pose proof (getAnnualIncome_pos i Hpos) as Hg.
  eexists. split; [reflexivity|].
  cbn [grossIncome incomeTax medicareLevy medicareLevySurcharge totalTax netIncome
       effectiveTaxRate].
  set (x := getAnnualIncome (income i) (incomeFrequency i)) in *.
  rewrite (proj2 (Qlt_bool_iff 0 x) Hg).
  destruct (bracketTax_bounds x) as (HB0 & HB1). specialize (HB1 (Qlt_le_weak _ _ Hg)).
  destruct (offset_bounds x) as (HO0 & HO1).
  destruct (levy_bounds x (Qlt_le_weak _ _ Hg)) as (HL0 & HL1).
  destruct (surcharge_bounds x (Qlt_le_weak _ _ Hg)) as (HS0 & HS1).
  pose proof (calculateIncomeTax_brackets x) as HT.
  assert (HT0 : 0 <= calculateIncomeTax x /\ calculateIncomeTax x <= 0.45 * x).
  { rewrite HT.
    destruct (Math_max_spec 0 (computeBracketTax x - calculateLITO x))
      as [(Hm & ->) | (Hm & ->)]; lra. }
  destruct HT0 as (HT0 & HT1).
  set (T := calculateIncomeTax x + calculateMedicareLevy x
            + calculateMedicareLevySurcharge x) in *.
  assert (HTot : 0 <= T /\ T <= 0.485 * x) by (unfold T; lra).
  destruct HTot as (Htot0 & Htot1).
  assert (Hd : 0 <= T / x /\ T / x <= 0.485).
  { split; [apply Qle_shift_div_l | apply Qle_shift_div_r]; lra. }
  split; [reflexivity|]. split; [reflexivity|].
  split; [lra|]. split; [lra|]. split; [lra|]. split; [lra|].
  split; lra.
Qed.

(** X21.  In the range of a bracket of the table the marginal rate is the
    rate of the bracket: 0 up to 18200, 16% from 18201 to 45000, 30% from
    45001 to 135000, 37% from 135001 to 190000 and 45% from 190001. *)
Theorem marginal_rate_by_bracket : forall x : Q,
  (0 <= x -> x <= 18200 -> getMarginalTaxRate x = 0)
  /\ (18201 <= x -> x <= 45000 -> getMarginalTaxRate x = 0.16)
  /\ (45001 <= x -> x <= 135000 -> getMarginalTaxRate x = 0.30)
  /\ (135001 <= x -> x <= 190000 -> getMarginalTaxRate x = 0.37)
  /\ (190001 <= x -> getMarginalTaxRate x = 0.45).
Proof.
  intro x. unfold getMarginalTaxRate, taxBrackets.
  cbn [first_matching]. unfold in_bracket. cbn [min max rate].
  repeat split; intros; decide_tests; reflexivity.
Qed.

(** X22.  For a positive gross income the taxable amounts of the bracket
    lines of the breakdown add up to the gross income. *)
Theorem breakdown_partitions_income : forall res : TaxCalculationResults,
  0 < grossIncome res ->
  taxableTotal (taxBreakdown (Some res) true) == grossIncome res.
Proof.
  intros res Hg. unfold taxBreakdown. cbn [negb]. cbv zeta.
  set (x := grossIncome res) in *.
  rewrite (proj2 (Qlt_bool_iff 0 x) Hg).
  assert (Hoff : forall l : list BreakdownLine,
             taxableTotal
               (if Qlt_bool 0 (calculateLITO x)
                then l ++ [ {| range := "Low Income Tax Offset"; rateLabel := "Offset";
                               taxableAmount := x; taxAmount := - calculateLITO x;
                               isOffset := true |} ]
                else l)
             == taxableTotal l).
  { intro l. destruct (Qlt_bool 0 (calculateLITO x)); [|reflexivity].
    induction l as [|a l IH]; cbn [app taxableTotal isOffset].
    - ring.
    - rewrite IH. reflexivity. }
  rewrite Hoff. unfold Math_min.
  destruct (bracket_ranges x) as [H | [H | [H | [H | H]]]];
    decide_tests; cbn [app taxableTotal isOffset taxableAmount]; ring.
Qed.

(** X23.  Once the income field is touched, the form of the tax
    calculator is valid exactly when the income is positive and at most
    10,000,000. *)
Theorem tax_formValid_touched : forall i : TaxInputs,
  formValid i true = true <-> (0 < income i /\ income i <= 10000000).
Proof.
  intro i. unfold formValid, validateInputs. cbn [andb].
  destruct (Qlt_bool 10000000 (income i)) eqn:E1;
  destruct (Qle_bool (income i) 0) eqn:E2;
  repeat match goal with
         | H : Qle_bool _ _ = true |- _ => apply Qle_bool_iff in H
         | H : Qle_bool _ _ = false |- _ => apply Qle_bool_false_iff in H
         | H : Qlt_bool _ _ = true |- _ => apply Qlt_bool_iff in H
         | H : Qlt_bool _ _ = false |- _ => apply Qlt_bool_false_iff in H
         end;
  rewrite ?Qlt_bool_iff; split; intro H; try discriminate H; try lra.
Qed.

(** *** The statements at concrete incomes *)

Lemma income_tax_monotone_witness :
  30000 <= 75000 /\ calculateIncomeTax 30000 <= calculateIncomeTax 75000.
Proof.
  split; [discriminate|]. apply (income_tax_monotone 30000 75000). discriminate.
Defined.

Lemma income_tax_from_base_tax_witness :
  In {| min := 45001; max := Some 135000; rate := 0.30; baseTax := 4288 |} taxBrackets
  /\ in_bracket 75000
       {| min := 45001; max := Some 135000; rate := 0.30; baseTax := 4288 |} = true
  /\ calculateIncomeTax 75000
     == Math_max 0 (4288 + 0.30 * (75000 - (45001 - 1)) - calculateLITO 75000).
Proof.
  split; [right; right; left; reflexivity|]. split; [reflexivity|].
  apply (income_tax_from_base_tax
           {| min := 45001; max := Some 135000; rate := 0.30; baseTax := 4288 |} 75000);
    [right; right; left; reflexivity | reflexivity].
Defined.

Lemma net_income_bounds_witness :
  valid weekly_1500
  /\ exists res, calculateTax (formValid weekly_1500 true) weekly_1500 = Some res
       /\ totalTax res == incomeTax res + medicareLevy res + medicareLevySurcharge res
       /\ netIncome res == grossIncome res - totalTax res
       /\ 0 <= totalTax res /\ totalTax res <= 0.485 * grossIncome res
       /\ 0 < netIncome res /\ netIncome res <= grossIncome res
       /\ 0 <= effectiveTaxRate res /\ effectiveTaxRate res <= 48.5.
Proof.
  split; [split; [reflexivity | discriminate]|].
  apply (net_income_bounds weekly_1500 true). split; [reflexivity | discriminate].
Defined.

Lemma breakdown_partitions_income_witness :
  exists res, calculateTax true income_75000 = Some res
    /\ 0 < grossIncome res
    /\ taxableTotal (taxBreakdown (Some res) true) == grossIncome res.
Proof.
  eexists. split; [reflexivity|]. split; [reflexivity|].
  apply breakdown_partitions_income. reflexivity.
Defined.

End TaxExtra.

(** ** More on the income annualisation *)

Module AnnualisationExtra.

Import Annualisation AnnualisationFacts.

Lemma average_pay (i : AnnualisationInputs) :
  valid i -> 0 < ytdIncome i / paysReceived i.
Proof.
  intros (Hy & Hp & _). apply Qlt_shift_div_l; lra.
Qed.

(** X25.  On a valid input the remaining pay periods and the projected
    remaining income are not negative; when every pay of the year is
    received, no pay period remains and nothing is projected. *)
Theorem annualisation_bounds : forall (i : AnnualisationInputs) (touched : TouchedFields),
  valid i ->
  exists res,
    calculateAnnualisation (formValid i touched) i = Some res
    /\ 0 <= remainingPayPeriods res
    /\ 0 <= projectedRemainingIncome res
    /\ (paysReceived i == periodsPerYear (payFrequency i) ->
        remainingPayPeriods res == 0 /\ projectedRemainingIncome res == 0).
Proof.
  intros i t Hv. rewrite (annualisation_formValid_of_valid i t Hv).
  pose proof (average_pay i Hv) as Hpos.
  destruct Hv as (Hy & Hp & Hmax).
  eexists. split; [reflexivity|].
  cbn [remainingPayPeriods projectedRemainingIncome].
  set (a := ytdIncome i / paysReceived i) in *.
  set (n := periodsPerYear (payFrequency i)) in *.
  split; [lra|]. split; [apply Qmult_le_0_compat; lra|].
  intro Hfull. split.
  - rewrite Hfull. ring.
  - rewrite Hfull. ring.
Qed.

(** X26.  On a valid input the months elapsed are positive and never
    exceed [52 / 4.33], about 12.01; for a monthly frequency they are the
    pays received. *)
Theorem months_elapsed_bounds : forall (i : AnnualisationInputs) (touched : TouchedFields),
  valid i ->
  exists res,
    calculateAnnualisation (formValid i touched) i = Some res
    /\ 0 < monthsElapsed res
    /\ monthsElapsed res * 4.33 <= 52
    /\ (payFrequency i = monthly -> monthsElapsed res == paysReceived i).
Proof.
  intros i t Hv. rewrite (annualisation_formValid_of_valid i t Hv).
  destruct Hv as (Hy & Hp & Hmax).
  eexists. split; [reflexivity|]. cbn [monthsElapsed].
  destruct (payFrequency i); cbn [periodsPerYear] in Hmax.
  - split; [apply Qlt_shift_div_l; lra|].
    split; [|intro H; discriminate H].
    assert (E : paysReceived i / 4.33 * 4.33 == paysReceived i) by field.
    rewrite E. lra.
  - split; [apply Qlt_shift_div_l; lra|].
    split; [|intro H; discriminate H].
    assert (E : paysReceived i * 2 / 4.33 * 4.33 == paysReceived i * 2) by field.
    rewrite E. lra.
  - assert (E : paysReceived i * 4.33 / 4.33 == paysReceived i) by field.
    rewrite E. split; [lra|]. split; [lra | reflexivity].
  - split; [apply Qlt_shift_div_l; lra|].
    split; [|intro H; discriminate H].
    assert (E : paysReceived i * 13 / 4.33 * 4.33 == paysReceived i * 13) by field.
    rewrite E. lra.
Qed.

(** X27.  Once both fields are touched, the form of the annualisation
    calculator is valid exactly when the income to date is positive and
    the pays received are positive and at most the pay periods of the
    year for the frequency. *)
Theorem annualisation_formValid_touched : forall i : AnnualisationInputs,
  formValid i all_touched = true <-> valid i.
Proof.
  intro i. unfold formValid, validateInputs, valid, all_touched.
  cbn [touched_ytdIncome touched_paysReceived err_ytdIncome err_paysReceived andb].
  destruct (Qle_bool (ytdIncome i) 0) eqn:E1;
  destruct (Qle_bool (paysReceived i) 0) eqn:E2;
  destruct (Qlt_bool (periodsPerYear (payFrequency i)) (paysReceived i)) eqn:E3;
  repeat match goal with
         | H : Qle_bool _ _ = true |- _ => apply Qle_bool_iff in H
         | H : Qle_bool _ _ = false |- _ => apply Qle_bool_false_iff in H
         | H : Qlt_bool _ _ = true |- _ => apply Qlt_bool_iff in H
         | H : Qlt_bool _ _ = false |- _ => apply Qlt_bool_false_iff in H
         end;
  rewrite ?andb_true_iff, ?Qlt_bool_iff;
  split; intro H; try discriminate H; try (exfalso; lra); tauto.
Qed.

(** *** The statements at a concrete input *)

Lemma annualisation_bounds_witness :
  valid ytd_13_fortnights
  /\ exists res,
       calculateAnnualisation (formValid ytd_13_fortnights all_touched) ytd_13_fortnights
       = Some res
       /\ 0 <= remainingPayPeriods res
       /\ 0 <= projectedRemainingIncome res
       /\ (paysReceived ytd_13_fortnights
           == periodsPerYear (payFrequency ytd_13_fortnights) ->
           remainingPayPeriods res == 0 /\ projectedRemainingIncome res == 0).
Proof.
  split; [split; [reflexivity | split; [reflexivity | discriminate]]|].
  apply (annualisation_bounds ytd_13_fortnights all_touched).
  split; [reflexivity | split; [reflexivity | discriminate]].
Defined.

Lemma months_elapsed_bounds_witness :
  valid ytd_13_fortnights
  /\ exists res,
       calculateAnnualisation (formValid ytd_13_fortnights all_touched) ytd_13_fortnights
       = Some res
       /\ 0 < monthsElapsed res
       /\ monthsElapsed res * 4.33 <= 52
       /\ (payFrequency ytd_13_fortnights = monthly ->
           monthsElapsed res == paysReceived ytd_13_fortnights).
Proof.
  split; [split; [reflexivity | split; [reflexivity | discriminate]]|].
  apply (months_elapsed_bounds ytd_13_fortnights all_touched).
  split; [reflexivity | split; [reflexivity | discriminate]].
Defined.

End AnnualisationExtra.
